(** * MCP24LC32AT serial EEPROM driver (peripherals/c/eeprom.c)

    A shallow embedding of the byte-transaction driver and of the two
    environments it is exercised against: a scripted bus that answers
    every primitive from an oracle and records the calls, and a model
    of the controller with the EEPROM attached. *)

From Stdlib Require Import ZArith List Bool Lia String Ascii.
Import ListNotations.
Local Open Scope Z_scope.

(** ** Types and constants of the missing headers *)

(** Modelled from the spec: the header that declares [i2c_status_t] is
    not among the sources.  The driver itself names [I2C_OK] and
    [I2C_INVALID_BASE]; the remaining outcomes are the ones the data
    model and the error taxonomy list (slave not acknowledged,
    arbitration lost, generic controller error). *)
Inductive i2c_status_t : Set :=
| I2C_OK
| I2C_INVALID_BASE
| I2C_NO_ACK
| I2C_ARB_LOST
| I2C_BUS_ERROR.

(** Modelled from the spec: the direction argument of the address-set
    primitive; the driver uses both values by name. *)
Inductive i2c_read_write_t : Set :=
| I2C_WRITE
| I2C_READ.

(** [status != I2C_OK] is written [negb (is_ok status)]. *)
Definition is_ok (status : i2c_status_t) : bool :=
  match status with
  | I2C_OK => true
  | _ => false
  end.

(** The macros of eeprom.h and of the board support headers.  Their
    values are not in the sources, so they are taken as parameters. *)
Class Defines : Set := {
  MCP24LC32AT_DEV_ID : Z;
  I2C_MCS_START : Z;
  I2C_MCS_RUN : Z;
  I2C_MCS_STOP : Z;
  I2C1_BASE : Z;
  EEPROM_I2C_BASE : Z;
  EEPROM_GPIO_BASE : Z;
  EEPROM_I2C_SCL_PIN : Z;
  EEPROM_I2C_SCL_PCTL_M : Z;
  EEPROM_I2C_SCL_PIN_PCTL : Z;
  EEPROM_I2C_SDA_PIN : Z;
  EEPROM_I2C_SDA_PCTL_M : Z;
  EEPROM_I2C_SDA_PIN_PCTL : Z
}.

(** Conversions to the fixed-width unsigned types. *)
Definition uint8 (x : Z) : Z := x mod 2 ^ 8.
Definition uint16 (x : Z) : Z := x mod 2 ^ 16.

(** ** Computations over the hardware

    A computation threads the state [W] of the world outside the
    driver.  [None] stands for a busy-wait loop that used up its
    iteration budget, that is, for a call that has not returned. *)
Definition M (W A : Type) : Type := W -> option (A * W).

Definition ret {W A : Type} (a : A) : M W A :=
  fun w => Some (a, w).

Definition bind {W A B : Type} (m : M W A) (k : A -> M W B) : M W B :=
  fun w =>
    match m w with
    | Some (a, w') => k a w'
    | None => None
    end.

Definition spin {W A : Type} : M W A :=
  fun _ => None.

Notation "x <- m ;; k" := (bind m (fun x => k))
  (at level 61, m at next level, right associativity).
Notation "' pat <- m ;; k" := (bind m (fun x => match x with pat => k end))
  (at level 61, pat pattern, m at next level, right associativity).

(** The value a computation hands back, if it returns. *)
Definition returned {W A : Type} (r : option (A * W)) : option A :=
  option_map fst r.

(** ** The primitives the driver is written against *)

(** The two-wire controller (i2c.c, not among the sources).  The byte
    read takes the content of the cell its pointer argument designates
    and returns the content afterwards. *)
Class I2C (W : Type) : Type := {
  i2cVerifyBaseAddr : Z -> M W bool;
  i2cSetSlaveAddr : Z -> Z -> i2c_read_write_t -> M W i2c_status_t;
  i2cSendByte : Z -> Z -> Z -> M W i2c_status_t;
  i2cGetByte : Z -> Z -> Z -> M W (i2c_status_t * Z);
  I2CMasterBusy : Z -> M W bool;
  I2CMasterAdrAck : Z -> M W bool
}.

(** Pin configuration and controller start-up (gpio_port.c and i2c.c,
    not among the sources). *)
Class GPIO (W : Type) : Type := {
  gpio_enable_port : Z -> M W bool;
  gpio_config_digital_enable : Z -> Z -> M W bool;
  gpio_config_alternate_function : Z -> Z -> M W bool;
  gpio_config_port_control : Z -> Z -> Z -> M W bool;
  gpio_config_open_drain : Z -> Z -> M W bool;
  initializeI2CMaster : Z -> M W i2c_status_t
}.

(** ** The driver

    The busy-wait loops of the source have no bound.  Each loop takes
    an iteration budget here, and a loop that exhausts it makes the
    whole call [spin]: statements of the form "does not return" hold
    for every budget, statements of the form "returns" name a budget
    that suffices. *)

Section Driver.
Context {D : Defines} {W : Type} {bus : I2C W}.

(** [while ( I2CMasterBusy(i2c_base)) {};] *)
Fixpoint wait_while_busy (fuel : nat) (i2c_base : Z) : M W unit :=
  match fuel with
  | O => spin
  | S fuel' =>
      busy <- I2CMasterBusy i2c_base ;;
      if busy then wait_while_busy fuel' i2c_base else ret tt
  end.

(** The [do ... while (I2CMasterAdrAck(i2c_base) == false)] loop of
    [eeprom_wait_for_write]; [iters] bounds its iterations and
    [fuel] those of the inner busy-wait. *)
Fixpoint poll_until_ack (fuel iters : nat) (i2c_base : Z)
  : M W i2c_status_t :=
  match iters with
  | O => spin
  | S iters' =>
      status <- i2cSendByte i2c_base 0
                  (Z.lor (Z.lor I2C_MCS_START I2C_MCS_RUN) I2C_MCS_STOP) ;;
      _ <- wait_while_busy fuel i2c_base ;;
      ack <- I2CMasterAdrAck i2c_base ;;
      if Bool.eqb ack false
      then poll_until_ack fuel iters' i2c_base
      else ret status
  end.

Definition eeprom_wait_for_write (fuel : nat) (i2c_base : Z)
  : M W i2c_status_t :=
  valid <- i2cVerifyBaseAddr i2c_base ;;
  if negb valid then ret I2C_INVALID_BASE
  else
    _ <- i2cSetSlaveAddr i2c_base MCP24LC32AT_DEV_ID I2C_WRITE ;;
    poll_until_ack fuel fuel i2c_base.

Definition eeprom_byte_write (fuel : nat) (i2c_base address data : Z)
  : M W i2c_status_t :=
  _ <- wait_while_busy fuel i2c_base ;;
  status <- i2cSetSlaveAddr i2c_base MCP24LC32AT_DEV_ID I2C_WRITE ;;
  if negb (is_ok status) then ret status else
  _ <- eeprom_wait_for_write fuel i2c_base ;;
  status <- i2cSendByte i2c_base (uint8 (Z.shiftr address 8))
              (Z.lor I2C_MCS_START I2C_MCS_RUN) ;;
  if negb (is_ok status) then ret status else
  status <- i2cSendByte i2c_base (uint8 address) I2C_MCS_RUN ;;
  if negb (is_ok status) then ret status else
  status <- i2cSendByte i2c_base data
              (Z.lor I2C_MCS_RUN I2C_MCS_STOP) ;;
  if negb (is_ok status) then ret status else
  ret status.

(** [data] is the content of the cell the pointer argument designates;
    the result carries its content when the call returns. *)
Definition eeprom_byte_read (fuel : nat) (i2c_base address data : Z)
  : M W (i2c_status_t * Z) :=
  _ <- wait_while_busy fuel i2c_base ;;
  _ <- eeprom_wait_for_write fuel i2c_base ;;
  status <- i2cSetSlaveAddr i2c_base MCP24LC32AT_DEV_ID I2C_WRITE ;;
  if negb (is_ok status) then ret (status, data) else
  status <- i2cSendByte i2c_base (uint8 (Z.shiftr address 8))
              (Z.lor I2C_MCS_START I2C_MCS_RUN) ;;
  if negb (is_ok status) then ret (status, data) else
  status <- i2cSendByte i2c_base (uint8 address) I2C_MCS_RUN ;;
  if negb (is_ok status) then ret (status, data) else
  status <- i2cSetSlaveAddr i2c_base MCP24LC32AT_DEV_ID I2C_READ ;;
  if negb (is_ok status) then ret (status, data) else
  '(status, data') <- i2cGetByte i2c_base data
              (Z.lor (Z.lor I2C_MCS_START I2C_MCS_RUN) I2C_MCS_STOP) ;;
  if negb (is_ok status) then ret (status, data') else
  ret (status, data').

(** A C string is the characters before the first NUL; the end of the
    Rocq string stands for the terminator of the array. *)
Definition is_nul (c : ascii) : bool :=
  (N_of_ascii c =? 0)%N.

Fixpoint strlen (s : string) : nat :=
  match s with
  | EmptyString => O
  | String c rest => if is_nul c then O else S (strlen rest)
  end.

Fixpoint c_str (s : string) : string :=
  match s with
  | EmptyString => EmptyString
  | String c rest => if is_nul c then EmptyString else String c (c_str rest)
  end.

(** [for (i = 0; i < strlen(string); i++)
      eeprom_byte_write(I2C1_BASE, address++, (uint8_t) string[i]);]
    The status of each write is dropped. *)
Fixpoint write_to_eeprom (fuel : nat) (string : String.string)
    (address : Z) : M W unit :=
  match string with
  | EmptyString => ret tt
  | String c rest =>
      if is_nul c then ret tt
      else
        _ <- eeprom_byte_write fuel I2C1_BASE address
               (uint8 (Z.of_N (N_of_ascii c))) ;;
        write_to_eeprom fuel rest (uint16 (address + 1))
  end.

Definition read_from_eprom (fuel : nat) (address read_val : Z) : M W Z :=
  '(_, read_val') <- eeprom_byte_read fuel I2C1_BASE address read_val ;;
  ret read_val'.

(** The read-back loops of [eeprom_init_write_read]:
    [for (i = a; i < a + strlen(s); i++)
       { read_from_eprom(i, &read_val); printf("%c", (char) read_val); }]
    with [count] iterations left; the result is the text printed. *)
Fixpoint read_back (fuel : nat) (count : nat) (i read_val : Z)
  : M W string :=
  match count with
  | O => ret EmptyString
  | S count' =>
      read_val' <- read_from_eprom fuel (uint16 i) read_val ;;
      rest <- read_back fuel count' (i + 1) read_val' ;;
      ret (String (ascii_of_N (Z.to_N (uint8 read_val'))) rest)
  end.

End Driver.

Section Init.
Context {D : Defines} {W : Type} {pins : GPIO W}.

Definition eeprom_init : M W bool :=
  ok <- gpio_enable_port EEPROM_GPIO_BASE ;;
  if Bool.eqb ok false then ret false else
  ok <- gpio_config_digital_enable EEPROM_GPIO_BASE EEPROM_I2C_SCL_PIN ;;
  if Bool.eqb ok false then ret false else
  ok <- gpio_config_alternate_function EEPROM_GPIO_BASE EEPROM_I2C_SCL_PIN ;;
  if Bool.eqb ok false then ret false else
  ok <- gpio_config_port_control EEPROM_GPIO_BASE
          EEPROM_I2C_SCL_PCTL_M EEPROM_I2C_SCL_PIN_PCTL ;;
  if Bool.eqb ok false then ret false else
  ok <- gpio_config_digital_enable EEPROM_GPIO_BASE EEPROM_I2C_SDA_PIN ;;
  if Bool.eqb ok false then ret false else
  ok <- gpio_config_open_drain EEPROM_GPIO_BASE EEPROM_I2C_SDA_PIN ;;
  if Bool.eqb ok false then ret false else
  ok <- gpio_config_alternate_function EEPROM_GPIO_BASE EEPROM_I2C_SDA_PIN ;;
  if Bool.eqb ok false then ret false else
  ok <- gpio_config_port_control EEPROM_GPIO_BASE
          EEPROM_I2C_SDA_PCTL_M EEPROM_I2C_SDA_PIN_PCTL ;;
  if Bool.eqb ok false then ret false else
  status <- initializeI2CMaster EEPROM_I2C_BASE ;;
  if negb (is_ok status) then ret false else
  ret true.

End Init.

(** ** A scripted bus

    Every primitive is answered from a script and the framed calls are
    recorded with the status they were given, in the order they were
    made.  The script is arbitrary, so a statement over all scripted
    buses is a statement over every behaviour of the hardware. *)

Inductive bus_call : Set :=
| SetSlaveAddr (base dev : Z) (rw : i2c_read_write_t)
| SendByte (base data mcs : Z)
| GetByte (base mcs : Z).

Record script : Type := {
  valid_base : Z -> bool;
  (** status given to the n-th address-set, send or get call *)
  status_at : nat -> i2c_status_t;
  (** content left in the destination cell by the n-th call, when it is
      a get, from the cell's earlier content *)
  byte_at : nat -> Z -> Z;
  (** answer to the n-th read of the busy flag *)
  busy_at : nat -> bool;
  (** answer to the n-th read of the address-acknowledge flag *)
  ack_at : nat -> bool
}.

Record mock : Type := {
  env : script;
  log : list (bus_call * i2c_status_t);
  n_calls : nat;
  busy_polls : nat;
  ack_polls : nat
}.

Definition answer (c : bus_call) : M mock i2c_status_t :=
  fun m =>
    let s := status_at (env m) (n_calls m) in
    Some (s, {| env := env m;
                log := log m ++ [(c, s)];
                n_calls := S (n_calls m);
                busy_polls := busy_polls m;
                ack_polls := ack_polls m |}).

Definition answer_get (c : bus_call) (data : Z) : M mock (i2c_status_t * Z) :=
  fun m =>
    match answer c m with
    | Some (s, m') => Some ((s, byte_at (env m) (n_calls m) data), m')
    | None => None
    end.

Definition read_busy : M mock bool :=
  fun m =>
    Some (busy_at (env m) (busy_polls m),
          {| env := env m;
             log := log m;
             n_calls := n_calls m;
             busy_polls := S (busy_polls m);
             ack_polls := ack_polls m |}).

Definition read_ack : M mock bool :=
  fun m =>
    Some (ack_at (env m) (ack_polls m),
          {| env := env m;
             log := log m;
             n_calls := n_calls m;
             busy_polls := busy_polls m;
             ack_polls := S (ack_polls m) |}).

#[export] Instance mock_bus : I2C mock := {|
  i2cVerifyBaseAddr := fun base m => Some (valid_base (env m) base, m);
  i2cSetSlaveAddr := fun base dev rw => answer (SetSlaveAddr base dev rw);
  i2cSendByte := fun base data mcs => answer (SendByte base data mcs);
  i2cGetByte := fun base data mcs => answer_get (GetByte base mcs) data;
  I2CMasterBusy := fun _ => read_busy;
  I2CMasterAdrAck := fun _ => read_ack
|}.

(** The calls made between two states of the scripted bus. *)
Definition calls (m : mock) : list bus_call := map fst (log m).

(** A bus that has not been used yet. *)
Definition fresh (sc : script) : mock :=
  {| env := sc; log := []; n_calls := O; busy_polls := O; ack_polls := O |}.

(** The same bus with other statuses on the calls numbered from [lo]
    up to, not including, [hi]. *)
Definition with_statuses (sc : script) (lo hi : nat)
    (f : nat -> i2c_status_t) : script :=
  {| valid_base := valid_base sc;
     status_at := fun i =>
       if (Nat.leb lo i && Nat.ltb i hi)%bool then f i else status_at sc i;
     byte_at := byte_at sc;
     busy_at := busy_at sc;
     ack_at := ack_at sc |}.

Definition on_script (m : mock) (sc : script) : mock :=
  {| env := sc; log := log m; n_calls := n_calls m;
     busy_polls := busy_polls m; ack_polls := ack_polls m |}.

(** *** How far the loops get on a scripted bus *)

(** Reads of the busy flag made by one busy-wait that starts at read
    number [bp]: the number of the next unread answer when the wait
    ends, nothing when [fuel] reads all found the flag set. *)
Fixpoint idle_after (busy : nat -> bool) (fuel bp : nat) : option nat :=
  match fuel with
  | O => None
  | S fuel' => if busy bp then idle_after busy fuel' (S bp) else Some (S bp)
  end.

(** The poll loop: how many probes went unacknowledged before the
    acknowledged one, and where the busy reads stand afterwards. *)
Fixpoint acked_after (busy ack : nat -> bool) (fuel iters bp ap : nat)
  : option (nat * nat) :=
  match iters with
  | O => None
  | S iters' =>
      match idle_after busy fuel bp with
      | None => None
      | Some bp' =>
          if ack ap then Some (O, bp')
          else
            match acked_after busy ack fuel iters' bp' (S ap) with
            | Some (n, bp'') => Some (S n, bp'')
            | None => None
            end
      end
  end.

(** [ack] answers true for the first time at read number [ap + n]. *)
Definition first_ack (ack : nat -> bool) (ap n : nat) : Prop :=
  ack (ap + n)%nat = true /\ forall i, (i < n)%nat -> ack (ap + i)%nat = false.

(** The busy flag is never found set [fuel] times in a row. *)
Definition settles_within (busy : nat -> bool) (fuel : nat) : Prop :=
  forall bp, exists j, (j < fuel)%nat /\ busy (bp + j)%nat = false.

Section Probes.
Context {D : Defines}.

(** The zero-byte probe of the write-complete wait. *)
Definition probe (base : Z) : bus_call :=
  SendByte base 0 (Z.lor (Z.lor I2C_MCS_START I2C_MCS_RUN) I2C_MCS_STOP).

(** [k] probes, the first of them call number [c]. *)
Fixpoint probe_events (sc : script) (base : Z) (c k : nat)
  : list (bus_call * i2c_status_t) :=
  match k with
  | O => []
  | S k' => (probe base, status_at sc c) :: probe_events sc base (S c) k'
  end.

(** The calls [eeprom_byte_write] makes itself, in order. *)
Definition write_sequence (base address data : Z) : list bus_call :=
  [ SetSlaveAddr base MCP24LC32AT_DEV_ID I2C_WRITE;
    SendByte base (uint8 (Z.shiftr address 8))
      (Z.lor I2C_MCS_START I2C_MCS_RUN);
    SendByte base (uint8 address) I2C_MCS_RUN;
    SendByte base data (Z.lor I2C_MCS_RUN I2C_MCS_STOP) ].

(** The calls [eeprom_byte_read] makes itself, in order. *)
Definition read_sequence (base address : Z) : list bus_call :=
  [ SetSlaveAddr base MCP24LC32AT_DEV_ID I2C_WRITE;
    SendByte base (uint8 (Z.shiftr address 8))
      (Z.lor I2C_MCS_START I2C_MCS_RUN);
    SendByte base (uint8 address) I2C_MCS_RUN;
    SetSlaveAddr base MCP24LC32AT_DEV_ID I2C_READ;
    GetByte base (Z.lor (Z.lor I2C_MCS_START I2C_MCS_RUN) I2C_MCS_STOP) ].

(** The calls [eeprom_wait_for_write] makes when [n] probes go
    unacknowledged before the acknowledged one. *)
Definition wait_sequence (base : Z) (n : nat) : list bus_call :=
  SetSlaveAddr base MCP24LC32AT_DEV_ID I2C_WRITE
    :: repeat (probe base) (S n).

End Probes.

(** All events but the last were given status ok. *)
Definition ok_until_last (evs : list (bus_call * i2c_status_t)) : Prop :=
  forall e, In e (removelast evs) -> snd e = I2C_OK.

(** [l1] is an initial segment of [l2]. *)
Definition prefix_of {A : Type} (l1 l2 : list A) : Prop :=
  exists rest, l2 = l1 ++ rest.

(** ** A scripted board for the pin configuration *)

Inductive config_call : Set :=
| EnablePort (base : Z)
| DigitalEnable (base pins : Z)
| AlternateFunction (base pins : Z)
| PortControl (base mask pctl : Z)
| OpenDrain (base pins : Z)
| InitializeI2CMaster (base : Z).

Record board : Type := {
  (** outcome of the n-th pin configuration call *)
  gpio_ok : nat -> bool;
  (** status of the controller start-up when it is call number n *)
  master_status : nat -> i2c_status_t;
  config_log : list config_call
}.

Definition configure (c : config_call) : M board bool :=
  fun b =>
    Some (gpio_ok b (List.length (config_log b)),
          {| gpio_ok := gpio_ok b;
             master_status := master_status b;
             config_log := config_log b ++ [c] |}).

Definition start_master (c : config_call) : M board i2c_status_t :=
  fun b =>
    Some (master_status b (List.length (config_log b)),
          {| gpio_ok := gpio_ok b;
             master_status := master_status b;
             config_log := config_log b ++ [c] |}).

#[export] Instance board_pins : GPIO board := {|
  gpio_enable_port := fun base => configure (EnablePort base);
  gpio_config_digital_enable := fun base p => configure (DigitalEnable base p);
  gpio_config_alternate_function :=
    fun base p => configure (AlternateFunction base p);
  gpio_config_port_control :=
    fun base mask pctl => configure (PortControl base mask pctl);
  gpio_config_open_drain := fun base p => configure (OpenDrain base p);
  initializeI2CMaster := fun base => start_master (InitializeI2CMaster base)
|}.

Definition blank_board (ok : nat -> bool) (st : nat -> i2c_status_t) : board :=
  {| gpio_ok := ok; master_status := st; config_log := [] |}.

Section Steps.
Context {D : Defines}.

(** The nine configuration steps of [eeprom_init], in order. *)
Definition init_steps : list config_call :=
  [ EnablePort EEPROM_GPIO_BASE;
    DigitalEnable EEPROM_GPIO_BASE EEPROM_I2C_SCL_PIN;
    AlternateFunction EEPROM_GPIO_BASE EEPROM_I2C_SCL_PIN;
    PortControl EEPROM_GPIO_BASE EEPROM_I2C_SCL_PCTL_M EEPROM_I2C_SCL_PIN_PCTL;
    DigitalEnable EEPROM_GPIO_BASE EEPROM_I2C_SDA_PIN;
    OpenDrain EEPROM_GPIO_BASE EEPROM_I2C_SDA_PIN;
    AlternateFunction EEPROM_GPIO_BASE EEPROM_I2C_SDA_PIN;
    PortControl EEPROM_GPIO_BASE EEPROM_I2C_SDA_PCTL_M EEPROM_I2C_SDA_PIN_PCTL;
    InitializeI2CMaster EEPROM_I2C_BASE ].

End Steps.

(** Whether step number [i] of [eeprom_init] succeeds on a blank board. *)
Definition step_ok (ok : nat -> bool) (st : nat -> i2c_status_t) (i : nat)
  : bool :=
  if Nat.ltb i 8 then ok i else is_ok (st i).

(** ** The controller with the EEPROM attached *)

(** Modelled from the spec: the primitives of i2c.c and the device they
    drive are not among the sources.  The controller at [I2C1_BASE]
    turns the framing flags of a call into a start condition (which
    addresses the device named by the last address-set), the transfer
    of one byte, and a stop condition.  The EEPROM takes the first two
    bytes after a start as the high and low byte of its address
    counter, of which it decodes the low 12 bits, and the third as the
    data byte; a stop after a data byte stores it and opens a write
    cycle, during which the device does not acknowledge its address for
    the next [t_wc] attempts.  A read returns the byte under the
    address counter and advances it. *)
Record eeprom_bus : Type := {
  t_wc : nat;
  cells : Z -> Z;
  pointer : Z;
  received : list Z;
  selected : bool;
  write_cycle : nat;
  msa_dev : Z;
  msa_rw : i2c_read_write_t;
  adrack : bool
}.

Definition store (mem : Z -> Z) (a v : Z) : Z -> Z :=
  fun x => if x =? a then v else mem x.

Definition has_flag (mcs flag : Z) : bool :=
  negb (Z.land mcs flag =? 0).

Section Device.
Context {D : Defines}.

(** Modelled from the spec: a start condition.  Out of a write cycle the
    device acknowledges its own address; within one it does not, and
    one poll of the cycle has passed. *)
Definition on_start (d : eeprom_bus) : eeprom_bus :=
  match write_cycle d with
  | O =>
      let hit := msa_dev d =? MCP24LC32AT_DEV_ID in
      {| t_wc := t_wc d; cells := cells d; pointer := pointer d;
         received := []; selected := hit; write_cycle := O;
         msa_dev := msa_dev d; msa_rw := msa_rw d; adrack := hit |}
  | S remaining =>
      {| t_wc := t_wc d; cells := cells d; pointer := pointer d;
         received := []; selected := false; write_cycle := remaining;
         msa_dev := msa_dev d; msa_rw := msa_rw d; adrack := false |}
  end.

(** Modelled from the spec: one byte clocked out to the selected device.
    The second byte after the start completes the address counter. *)
Definition on_byte_out (d : eeprom_bus) (data : Z) : eeprom_bus :=
  match selected d, msa_rw d with
  | true, I2C_WRITE =>
      let r := received d ++ [data] in
      {| t_wc := t_wc d; cells := cells d;
         pointer := match r with
                    | [hi; lo] => Z.land (Z.lor (Z.shiftl hi 8) lo) 4095
                    | _ => pointer d
                    end;
         received := r; selected := true; write_cycle := write_cycle d;
         msa_dev := msa_dev d; msa_rw := msa_rw d; adrack := adrack d |}
  | _, _ => d
  end.

(** Modelled from the spec: one byte clocked in from the selected
    device; [data] is kept when no device answers. *)
Definition on_byte_in (d : eeprom_bus) (data : Z) : Z * eeprom_bus :=
  match selected d, msa_rw d with
  | true, I2C_READ =>
      (cells d (pointer d),
       {| t_wc := t_wc d; cells := cells d;
          pointer := Z.land (pointer d + 1) 4095;
          received := received d; selected := true;
          write_cycle := write_cycle d;
          msa_dev := msa_dev d; msa_rw := msa_rw d; adrack := adrack d |})
  | _, _ => (data, d)
  end.

(** Modelled from the spec: a stop condition.  After a data byte it
    commits the byte and opens the write cycle. *)
Definition on_stop (d : eeprom_bus) : eeprom_bus :=
  match selected d, received d with
  | true, _ :: _ :: v :: _ =>
      {| t_wc := t_wc d; cells := store (cells d) (pointer d) v;
         pointer := pointer d;
         received := []; selected := false; write_cycle := t_wc d;
         msa_dev := msa_dev d; msa_rw := msa_rw d; adrack := adrack d |}
  | _, _ =>
      {| t_wc := t_wc d; cells := cells d; pointer := pointer d;
         received := []; selected := false; write_cycle := write_cycle d;
         msa_dev := msa_dev d; msa_rw := msa_rw d; adrack := adrack d |}
  end.

(** Modelled from the spec: the address-set primitive latches the
    device address and the direction; no bus traffic. *)
Definition dev_set_slave_addr (base dev : Z) (rw : i2c_read_write_t)
  : M eeprom_bus i2c_status_t :=
  fun d =>
    if negb (base =? I2C1_BASE) then Some (I2C_INVALID_BASE, d)
    else
      Some (I2C_OK,
            {| t_wc := t_wc d; cells := cells d; pointer := pointer d;
               received := received d; selected := selected d;
               write_cycle := write_cycle d;
               msa_dev := dev; msa_rw := rw; adrack := adrack d |}).

(** Modelled from the spec: the framed send.  The status is ok when the
    device is selected once the start, if any, has been issued. *)
Definition dev_send_byte (base data mcs : Z) : M eeprom_bus i2c_status_t :=
  fun d =>
    if negb (base =? I2C1_BASE) then Some (I2C_INVALID_BASE, d)
    else
      let d1 := if has_flag mcs I2C_MCS_START then on_start d else d in
      let d2 := if has_flag mcs I2C_MCS_RUN then on_byte_out d1 data else d1 in
      let d3 := if has_flag mcs I2C_MCS_STOP then on_stop d2 else d2 in
      Some (if selected d1 then I2C_OK else I2C_NO_ACK, d3).

(** Modelled from the spec: the framed get. *)
Definition dev_get_byte (base data mcs : Z)
  : M eeprom_bus (i2c_status_t * Z) :=
  fun d =>
    if negb (base =? I2C1_BASE) then Some ((I2C_INVALID_BASE, data), d)
    else
      let d1 := if has_flag mcs I2C_MCS_START then on_start d else d in
      let '(v, d2) :=
        if has_flag mcs I2C_MCS_RUN then on_byte_in d1 data else (data, d1) in
      let d3 := if has_flag mcs I2C_MCS_STOP then on_stop d2 else d2 in
      Some ((if selected d1 then I2C_OK else I2C_NO_ACK, v), d3).

(** Modelled from the spec: the primitives over the controller at
    [I2C1_BASE]; transfers complete within the call, so the busy flag
    reads clear, and the acknowledge flag is that of the last start. *)
#[export] Instance eeprom_i2c : I2C eeprom_bus := {|
  i2cVerifyBaseAddr := fun base d => Some (base =? I2C1_BASE, d);
  i2cSetSlaveAddr := dev_set_slave_addr;
  i2cSendByte := dev_send_byte;
  i2cGetByte := dev_get_byte;
  I2CMasterBusy := fun _ d => Some (false, d);
  I2CMasterAdrAck := fun _ d => Some (adrack d, d)
|}.

(** The three framing flags are distinct control bits. *)
Definition flags_distinct : Prop :=
  I2C_MCS_START <> 0 /\ I2C_MCS_RUN <> 0 /\ I2C_MCS_STOP <> 0 /\
  Z.land I2C_MCS_START I2C_MCS_RUN = 0 /\
  Z.land I2C_MCS_START I2C_MCS_STOP = 0 /\
  Z.land I2C_MCS_RUN I2C_MCS_STOP = 0.

End Device.

(** A device whose write cycle lasts [twc] address polls, with memory
    content [mem], caught [busy] polls before the end of a write cycle. *)
Definition eeprom_with (twc : nat) (mem : Z -> Z) (busy : nat) : eeprom_bus :=
  {| t_wc := twc; cells := mem; pointer := 0; received := [];
     selected := false; write_cycle := busy;
     msa_dev := 0; msa_rw := I2C_WRITE; adrack := false |}.

(** The device once a write-complete wait addressed to [dev] has been
    acknowledged: out of its write cycle, deselected by the stop of the
    probe, memory and address counter untouched. *)
Definition idle (dev : Z) (d : eeprom_bus) : eeprom_bus :=
  {| t_wc := t_wc d; cells := cells d; pointer := pointer d;
     received := []; selected := false; write_cycle := O;
     msa_dev := dev; msa_rw := I2C_WRITE; adrack := true |}.

(** The device after a byte write of [data] at [address]. *)
Definition written (dev : Z) (d : eeprom_bus) (address data : Z)
  : eeprom_bus :=
  {| t_wc := t_wc d; cells := store (cells d) address data;
     pointer := address;
     received := []; selected := false; write_cycle := t_wc d;
     msa_dev := dev; msa_rw := I2C_WRITE; adrack := true |}.

(** The device after a byte read at [address]. *)
Definition fetched (dev : Z) (d : eeprom_bus) (address : Z) : eeprom_bus :=
  {| t_wc := t_wc d; cells := cells d;
     pointer := Z.land (address + 1) 4095;
     received := []; selected := false; write_cycle := O;
     msa_dev := dev; msa_rw := I2C_READ; adrack := true |}.

(** The address the device decodes from the two address bytes the
    driver sends for [address]. *)
Definition decoded (address : Z) : Z :=
  Z.land (Z.lor (Z.shiftl (uint8 (Z.shiftr address 8)) 8) (uint8 address))
    4095.

(** The memory after the characters of a C string have been stored at
    consecutive addresses from [a] on. *)
Fixpoint blit (s : string) (a : Z) (mem : Z -> Z) : Z -> Z :=
  match s with
  | EmptyString => mem
  | String c rest =>
      if is_nul c then mem
      else blit rest (a + 1) (store mem a (uint8 (Z.of_N (N_of_ascii c))))
  end.

(** The text printed from [count] consecutive cells from [a] on. *)
Fixpoint text (count : nat) (a : Z) (mem : Z -> Z) : string :=
  match count with
  | O => EmptyString
  | S count' =>
      String (ascii_of_N (Z.to_N (uint8 (mem a)))) (text count' (a + 1) mem)
  end.

(** Sample values of the macros, those of a TM4C123 board, on which the
    examples are run; no general statement depends on them. *)
Definition tm4c123 : Defines :=
  {| MCP24LC32AT_DEV_ID := 0x50;
     I2C_MCS_START := 0x2;
     I2C_MCS_RUN := 0x1;
     I2C_MCS_STOP := 0x4;
     I2C1_BASE := 0x40021000;
     EEPROM_I2C_BASE := 0x40021000;
     EEPROM_GPIO_BASE := 0x40004000;
     EEPROM_I2C_SCL_PIN := 0x40;
     EEPROM_I2C_SCL_PCTL_M := 0x0F000000;
     EEPROM_I2C_SCL_PIN_PCTL := 0x03000000;
     EEPROM_I2C_SDA_PIN := 0x80;
     EEPROM_I2C_SDA_PCTL_M := 0xF0000000;
     EEPROM_I2C_SDA_PIN_PCTL := 0x30000000 |}.

(** *** States the scripted bus reaches *)

(** The bus after a busy-wait that left the busy reads at [bp]. *)
Definition polled (m : mock) (bp : nat) : mock :=
  {| env := env m; log := log m; n_calls := n_calls m;
     busy_polls := bp; ack_polls := ack_polls m |}.

(** The bus after a poll loop in which [n] probes went unacknowledged
    before the acknowledged one. *)
Definition probed {D : Defines} (base : Z) (m : mock) (n bp : nat) : mock :=
  {| env := env m;
     log := log m ++ probe_events (env m) base (n_calls m) (S n);
     n_calls := n_calls m + S n;
     busy_polls := bp;
     ack_polls := ack_polls m + S n |}.

(** The bus after one more call [c]. *)
Definition called (m : mock) (c : bus_call) : mock :=
  {| env := env m;
     log := log m ++ [(c, status_at (env m) (n_calls m))];
     n_calls := S (n_calls m);
     busy_polls := busy_polls m;
     ack_polls := ack_polls m |}.

(** The calls [c :: rest] made one after the other up to the first that
    is not given status ok: the status of the last call made and the
    bus afterwards. *)
Fixpoint issue (m : mock) (c : bus_call) (rest : list bus_call)
  : i2c_status_t * mock :=
  let s := status_at (env m) (n_calls m) in
  match rest with
  | [] => (s, called m c)
  | c' :: rest' =>
      if is_ok s then issue (called m c) c' rest' else (s, called m c)
  end.

(** The content of the destination cell after a run of [count] calls
    that ends in a get, [data] being its content before: the get
    happens only when every call before it was given status ok. *)
Fixpoint cell_after (sc : script) (c count : nat) (data : Z) : Z :=
  match count with
  | O => data
  | S O => byte_at sc c data
  | S count' =>
      if is_ok (status_at sc c) then cell_after sc (S c) count' data else data
  end.

(** *** Shapes of a call log *)

(** Every event with a status other than ok is the last one, and its
    status is [st]. *)
Definition stops_at_first_failure (st : i2c_status_t)
    (evs : list (bus_call * i2c_status_t)) : Prop :=
  forall pre e post,
    evs = pre ++ e :: post -> snd e <> I2C_OK -> post = [] /\ st = snd e.

(** [direct] runs through [sequence] up to its first status other than
    ok, or to its end, and [st] is the status of the last call made. *)
Definition short_circuited (sequence : list bus_call) (st : i2c_status_t)
    (direct : list (bus_call * i2c_status_t)) : Prop :=
  exists done c,
    direct = done ++ [(c, st)] /\
    (forall e, In e done -> snd e = I2C_OK) /\
    prefix_of (map fst direct) sequence /\
    (st = I2C_OK -> map fst direct = sequence).

(** The calls of one write-complete wait on the handle [base]: none
    when the handle is refused, else the address-set and the probes. *)
Definition wait_calls {D : Defines} (sc : script) (base : Z)
    (waited : list bus_call) : Prop :=
  if valid_base sc base
  then exists n, waited = wait_sequence base n
  else waited = [].

(** ** Sample buses for the examples *)

(** A scripted bus whose handle check refuses every handle and whose
    device never acknowledges. *)
Definition refused_and_silent : script :=
  {| valid_base := fun _ => false;
     status_at := fun _ => I2C_OK;
     byte_at := fun _ v => v;
     busy_at := fun _ => false;
     ack_at := fun _ => false |}.

(** A scripted bus on which every call is given status ok, the busy
    flag is never set and the device acknowledges its address from the
    acknowledge read number [ready] on. *)
Definition ready_after (ready : nat) : script :=
  {| valid_base := fun _ => true;
     status_at := fun _ => I2C_OK;
     byte_at := fun _ _ => 0x41;
     busy_at := fun _ => false;
     ack_at := fun i => Nat.leb ready i |}.

(** The same with a handle check that refuses every handle. *)
Definition refused_but_ok : script :=
  {| valid_base := fun _ => false;
     status_at := fun _ => I2C_OK;
     byte_at := fun _ _ => 0x41;
     busy_at := fun _ => false;
     ack_at := fun _ => true |}.

(** A scripted bus that refuses every handle, in the check and in the
    status of every call. *)
Definition refused_throughout : script :=
  {| valid_base := fun _ => false;
     status_at := fun _ => I2C_INVALID_BASE;
     byte_at := fun _ v => v;
     busy_at := fun _ => false;
     ack_at := fun _ => true |}.

(** A scripted bus whose device is in a write cycle: the probes number
    2 and 3 are not acknowledged and are given status
    [I2C_NO_ACK], every other call is given status ok. *)
Definition in_write_cycle : script :=
  {| valid_base := fun _ => true;
     status_at := fun i =>
       if (Nat.leb 2 i && Nat.leb i 3)%bool then I2C_NO_ACK else I2C_OK;
     byte_at := fun _ _ => 0x41;
     busy_at := fun _ => false;
     ack_at := fun i => Nat.leb 2 i |}.

(** A scripted bus that refuses the very first call. *)
Definition refuses_first_call : script :=
  {| valid_base := fun _ => true;
     status_at := fun i => if Nat.eqb i 0 then I2C_NO_ACK else I2C_OK;
     byte_at := fun _ _ => 0x41;
     busy_at := fun i => Nat.ltb i 2;
     ack_at := fun _ => true |}.

(** ** The demonstration [eeprom_init_write_read] *)

(** The texts the demonstration stores. *)
Definition reset : string :=
  "Please press SW2 to get student info
~~~~~~~~~~~~~~~~~~~~~~~~~~~~~~~~~~~~~~~~~
".

Definition name1 : string :=
  "Student 1: Kevin Wilson
".

Definition name2 : string :=
  "Student 2: Haosong Ma
".

Definition teamNum : string :=
  "Team number: 13
".

Section Demo.
Context {D : Defines} {W : Type} {bus : I2C W}.

(** One read-back loop of the demonstration,
    [for (i = a; i < a + strlen(s); i++)
       { read_from_eprom(i, &read_val); printf("%c", (char) read_val); }]
    with [count] iterations left: the text printed and the content of
    [read_val] when the loop ends, which the next loop starts from. *)
Fixpoint print_from_eeprom (fuel count : nat) (i read_val : Z)
  : M W (string * Z) :=
  match count with
  | O => ret (EmptyString, read_val)
  | S count' =>
      read_val' <- read_from_eprom fuel (uint16 i) read_val ;;
      '(rest, last) <- print_from_eeprom fuel count' (i + 1) read_val' ;;
      ret (String (ascii_of_N (Z.to_N (uint8 read_val'))) rest, last)
  end.

(** [read_val] is the content of the uninitialised local of that name;
    the result is the text printed. *)
Definition eeprom_init_write_read (fuel : nat) (read_val : Z) : M W string :=
  _ <- write_to_eeprom fuel reset 250 ;;
  '(out1, read_val) <- print_from_eeprom fuel (strlen reset) 250 read_val ;;
  _ <- write_to_eeprom fuel name1 330 ;;
  '(out2, read_val) <- print_from_eeprom fuel (strlen name1) 330 read_val ;;
  _ <- write_to_eeprom fuel name2 410 ;;
  '(out3, read_val) <- print_from_eeprom fuel (strlen name2) 410 read_val ;;
  _ <- write_to_eeprom fuel teamNum 490 ;;
  '(out4, _) <- print_from_eeprom fuel (strlen teamNum) 490 read_val ;;
  ret (out1 ++ out2 ++ out3 ++ out4)%string.

End Demo.

(** ** The game (Project/game.c) *)

(** The macros of game.h and of the LCD headers, and the addresses of
    the bitmaps.  Their values are not in the sources, so they are
    taken as parameters. *)
Class GameDefines : Set := {
  BG_COLOR : Z;
  LCD_COLOR_RED : Z;
  LCD_COLOR_GREEN2 : Z;
  LCD_COLOR_BLACK : Z;
  LCD_COLOR_BLUE2 : Z;
  LCD_COLOR_YELLOW : Z;
  UFO_Y_MAX : Z;
  OCTOPUS_Y_MAX : Z;
  OCTOPUS_X_MAX : Z;
  OCTOPUS_X_MIN : Z;
  space_shipBitmaps : Z;
  octopus_Bitmap : Z
}.

(** Conversions to the 32-bit types: [uint32_t], and [int] from an
    unsigned 32-bit value (two's complement, as on the target). *)
Definition uint32 (x : Z) : Z := x mod 2 ^ 32.

Definition int32 (x : Z) : Z :=
  if uint32 x <? 2 ^ 31 then uint32 x else uint32 x - 2 ^ 32.

(** Modelled from the spec: the declaration of [_GameCharacter]
    (game.h) is not among the sources and the specification leaves the
    game out.  The fields are those game.c initialises, reads and
    writes, in the order of the initialisers, as unbounded integers;
    the last three are never accessed in game.c and their names are
    chosen after the comments on the initialisers. *)
Module GameCharacter.

Record _GameCharacter : Set := {
  width : Z;
  height : Z;
  xPos : Z;
  yPos : Z;
  bitmap : Z;
  fColor : Z;
  bColor : Z;
  type : string;
  x_max : Z;
  x_min : Z;
  moveRight : bool
}.

(** [character->yPos = y; character->xPos = x;] *)
Definition placed (c : _GameCharacter) (x y : Z) : _GameCharacter :=
  {| width := width c; height := height c; xPos := x; yPos := y;
     bitmap := bitmap c; fColor := fColor c; bColor := bColor c;
     type := type c; x_max := x_max c; x_min := x_min c;
     moveRight := moveRight c |}.

End GameCharacter.

(** Modelled from the spec: the declaration of [_GameObj] (game.h) is
    not among the sources and the specification leaves the game out.
    The fields are those game.c initialises, reads and writes, in the
    order of the initialisers, as unbounded integers. *)
Module GameObj.

Record _GameObj : Set := {
  width : Z;
  height : Z;
  border_weight : Z;
  xPos : Z;
  yPos : Z;
  fColor : Z;
  bColor : Z;
  type : string;
  x_max : Z;
  y_min : Z;
  moveRight : bool;
  hit : bool
}.

(** [obj->yPos = y; obj->xPos = x;] *)
Definition moved (o : _GameObj) (x y : Z) : _GameObj :=
  {| width := width o; height := height o;
     border_weight := border_weight o; xPos := x; yPos := y;
     fColor := fColor o; bColor := bColor o; type := type o;
     x_max := x_max o; y_min := y_min o; moveRight := moveRight o;
     hit := hit o |}.

(** [obj->hit = h;] *)
Definition marked (o : _GameObj) (h : bool) : _GameObj :=
  {| width := width o; height := height o;
     border_weight := border_weight o; xPos := xPos o; yPos := yPos o;
     fColor := fColor o; bColor := bColor o; type := type o;
     x_max := x_max o; y_min := y_min o; moveRight := moveRight o;
     hit := h |}.

End GameObj.

Import GameCharacter(_GameCharacter).
Import GameObj(_GameObj).

(** The calls to the display (lcd.c, not among the sources), with the
    arguments they are given. *)
Inductive lcd_call : Set :=
| Lcd_draw_image (x w y h image fColor bColor : Z)
| Lcd_draw_box (x w y h border fill border_weight : Z).

(** The horizontal position a call draws at. *)
Definition drawn_x (c : lcd_call) : Z :=
  match c with
  | Lcd_draw_image x _ _ _ _ _ _ => x
  | Lcd_draw_box x _ _ _ _ _ _ => x
  end.

(** The globals of game.c, the two [extern] variables it reads, and
    the calls the display has received. *)
Record game : Type := {
  score : Z;
  numBullets : Z;
  ufo : _GameCharacter;
  octopus : _GameCharacter;
  shieldArray : list _GameObj;
  numShields : Z;
  bullet : _GameObj;
  readyShoot : bool;
  touch_event : Z;
  lcd : list lcd_call
}.

(** A call of the game returns with a result and the state it leaves,
    has not returned within its loop budget, or has no defined
    behaviour (a pointer used at the wrong struct type, an index past
    the end of [shieldArray]). *)
Inductive outcome (A : Type) : Type :=
| Done (a : A) (g : game)
| Spinning
| Undefined.

Arguments Done {A} a g.
Arguments Spinning {A}.
Arguments Undefined {A}.

Definition G (A : Type) : Type := game -> outcome A.

Definition gret {A : Type} (a : A) : G A := fun g => Done a g.

Definition gbind {A B : Type} (m : G A) (k : A -> G B) : G B :=
  fun g =>
    match m g with
    | Done a g' => k a g'
    | Spinning => Spinning
    | Undefined => Undefined
    end.

Notation "x <~ m ;; k" := (gbind m (fun x => k))
  (at level 61, m at next level, right associativity).

(** The objects of game.c a pointer can designate. *)
Inductive gptr : Set :=
| To_ufo
| To_octopus
| To_shield (i : nat)
| To_bullet.

(** [l] with its element number [i] replaced. *)
Fixpoint replaced {A : Type} (l : list A) (i : nat) (a : A) : list A :=
  match l, i with
  | [], _ => []
  | _ :: rest, O => a :: rest
  | b :: rest, S i' => b :: replaced rest i' a
  end.

(** Reading through a pointer at the type [_GameCharacter]. *)
Definition load_character (p : gptr) : G _GameCharacter :=
  fun g =>
    match p with
    | To_ufo => Done (ufo g) g
    | To_octopus => Done (octopus g) g
    | _ => Undefined
    end.

Definition store_character (p : gptr) (c : _GameCharacter) : G unit :=
  fun g =>
    match p with
    | To_ufo =>
        Done tt {| score := score g; numBullets := numBullets g;
                   ufo := c; octopus := octopus g;
                   shieldArray := shieldArray g; numShields := numShields g;
                   bullet := bullet g; readyShoot := readyShoot g;
                   touch_event := touch_event g; lcd := lcd g |}
    | To_octopus =>
        Done tt {| score := score g; numBullets := numBullets g;
                   ufo := ufo g; octopus := c;
                   shieldArray := shieldArray g; numShields := numShields g;
                   bullet := bullet g; readyShoot := readyShoot g;
                   touch_event := touch_event g; lcd := lcd g |}
    | _ => Undefined
    end.

(** Reading through a pointer at the type [_GameObj]. *)
Definition load_object (p : gptr) : G _GameObj :=
  fun g =>
    match p with
    | To_bullet => Done (bullet g) g
    | To_shield i =>
        match nth_error (shieldArray g) i with
        | Some o => Done o g
        | None => Undefined
        end
    | _ => Undefined
    end.

Definition store_object (p : gptr) (o : _GameObj) : G unit :=
  fun g =>
    match p with
    | To_bullet =>
        Done tt {| score := score g; numBullets := numBullets g;
                   ufo := ufo g; octopus := octopus g;
                   shieldArray := shieldArray g; numShields := numShields g;
                   bullet := o; readyShoot := readyShoot g;
                   touch_event := touch_event g; lcd := lcd g |}
    | To_shield i =>
        match nth_error (shieldArray g) i with
        | Some _ =>
            Done tt {| score := score g; numBullets := numBullets g;
                       ufo := ufo g; octopus := octopus g;
                       shieldArray := replaced (shieldArray g) i o;
                       numShields := numShields g;
                       bullet := bullet g; readyShoot := readyShoot g;
                       touch_event := touch_event g; lcd := lcd g |}
        | None => Undefined
        end
    | _ => Undefined
    end.

(** One call to the display. *)
Definition display (c : lcd_call) : G unit :=
  fun g =>
    Done tt {| score := score g; numBullets := numBullets g;
               ufo := ufo g; octopus := octopus g;
               shieldArray := shieldArray g; numShields := numShields g;
               bullet := bullet g; readyShoot := readyShoot g;
               touch_event := touch_event g; lcd := lcd g ++ [c] |}.

(** [!strcmp(a, b)] *)
Definition same_text (a b : string) : bool :=
  String.eqb (c_str a) (c_str b).

Section Game.
Context {GD : GameDefines}.

Definition drawCharacter (character : gptr) (x y : Z) : G unit :=
  c <~ load_character character ;;
  _ <~ store_character character (GameCharacter.placed c x y) ;;
  c <~ load_character character ;;
  display (Lcd_draw_image x (GameCharacter.width c) y
             (GameCharacter.height c) (GameCharacter.bitmap c)
             (GameCharacter.fColor c) (GameCharacter.bColor c)).

Definition drawObject (obj : gptr) (x y : Z) : G unit :=
  o <~ load_object obj ;;
  _ <~ store_object obj (GameObj.moved o x y) ;;
  o <~ load_object obj ;;
  display (Lcd_draw_box x (GameObj.width o) y (GameObj.height o)
             (GameObj.bColor o) (GameObj.fColor o)
             (GameObj.border_weight o)).

(** The body of the four loops of [move_Left] and [move_Right]:
    [if (!strcmp(type,"character")) drawCharacter(ptr, i, yPos);
     else if (!strcmp(type, "object")) drawObject(ptr, i, yPos);] *)
Definition draw_at (type : string) (ptr : gptr) (i yPos : Z) : G unit :=
  if same_text type "character" then drawCharacter ptr i yPos
  else if same_text type "object" then drawObject ptr i yPos
  else gret tt.

(** [for (i = ...; i >= bound; i--) ...] with [i] of type [uint16_t]. *)
Fixpoint move_Left_loop (fuel : nat) (i bound yPos : Z) (type : string)
    (ptr : gptr) : G unit :=
  match fuel with
  | O => fun _ => Spinning
  | S fuel' =>
      if bound <=? i then
        _ <~ draw_at type ptr i yPos ;;
        move_Left_loop fuel' (uint16 (i - 1)) bound yPos type ptr
      else gret tt
  end.

Definition move_Left (fuel : nat) (xPos yPos num_pixels minX : Z)
    (type : string) (ptr : gptr) : G unit :=
  if int32 (uint32 (xPos - num_pixels)) <? minX then
    move_Left_loop fuel xPos minX yPos type ptr
  else
    let final_x := uint16 (uint32 (xPos - num_pixels)) in
    move_Left_loop fuel xPos final_x yPos type ptr.

(** [for (i = ...; i <= bound; i++) ...] with [i] of type [uint16_t]. *)
Fixpoint move_Right_loop (fuel : nat) (i bound yPos : Z) (type : string)
    (ptr : gptr) : G unit :=
  match fuel with
  | O => fun _ => Spinning
  | S fuel' =>
      if i <=? bound then
        _ <~ draw_at type ptr i yPos ;;
        move_Right_loop fuel' (uint16 (i + 1)) bound yPos type ptr
      else gret tt
  end.

Definition move_Right (fuel : nat) (xPos yPos num_pixels maxX : Z)
    (type : string) (ptr : gptr) : G unit :=
  if maxX <? uint32 (xPos + num_pixels) then
    move_Right_loop fuel xPos maxX yPos type ptr
  else
    let final_x := uint16 (uint32 (xPos + num_pixels)) in
    move_Right_loop fuel xPos final_x yPos type ptr.

(** The test of [shootBullet] on one shield. *)
Definition touches (o s : _GameObj) : bool :=
  (GameObj.yPos o =? GameObj.yPos s + GameObj.height s)
  && (GameObj.xPos o <? GameObj.xPos s + GameObj.width s)
  && (GameObj.xPos s <=? GameObj.xPos o + GameObj.width o).

(** [for (i = 0; i < numShields; i++) if (...) obj->hit = true;] with
    [count] iterations left. *)
Fixpoint check_shields (count i : nat) (obj : gptr) : G unit :=
  match count with
  | O => gret tt
  | S count' =>
      o <~ load_object obj ;;
      s <~ load_object (To_shield i) ;;
      _ <~ (if touches o s then store_object obj (GameObj.marked o true)
            else gret tt) ;;
      check_shields count' (S i) obj
  end.

(** The [while] loop of [shootBullet].  The delay loop at the end of
    its body counts to 10000 and touches nothing. *)
Fixpoint bullet_flight (fuel : nat) (obj : gptr) : G unit :=
  match fuel with
  | O => fun _ => Spinning
  | S fuel' =>
      o <~ load_object obj ;;
      if (1 <? GameObj.yPos o) && negb (GameObj.hit o) then
        _ <~ store_object obj
               (GameObj.moved o (GameObj.xPos o) (GameObj.yPos o - 1)) ;;
        o <~ load_object obj ;;
        _ <~ drawObject obj (uint16 (GameObj.xPos o))
               (uint16 (GameObj.yPos o)) ;;
        n <~ (fun g => Done (numShields g) g) ;;
        _ <~ check_shields (Z.to_nat n) O obj ;;
        bullet_flight fuel' obj
      else gret tt
  end.

Definition shootBullet (fuel : nat) (xPos yPos : Z) (obj : gptr) : G unit :=
  o <~ load_object obj ;;
  _ <~ store_object obj (GameObj.moved o xPos yPos) ;;
  _ <~ bullet_flight fuel obj ;;
  o <~ load_object obj ;;
  _ <~ display (Lcd_draw_box (GameObj.xPos o) (GameObj.width o)
                  (GameObj.yPos o) (GameObj.height o)
                  BG_COLOR BG_COLOR (GameObj.border_weight o)) ;;
  o <~ load_object obj ;;
  store_object obj (GameObj.marked o false).

(** [numBullets] is an [int]: decrementing the least one is not
    defined. *)
Definition checkShooting (fuel : nat) : G unit :=
  fun g =>
    if readyShoot g && (0 <? touch_event g) then
      if numBullets g <=? - 2 ^ 31 then Undefined else
      shootBullet fuel
        (uint16 (GameCharacter.xPos (octopus g) - 5))
        (uint16 (GameCharacter.yPos (octopus g)
                 - Z.quot (GameCharacter.width (octopus g)) 2 - 3))
        To_bullet
        {| score := score g; numBullets := numBullets g - 1;
           ufo := ufo g; octopus := octopus g;
           shieldArray := shieldArray g; numShields := numShields g;
           bullet := bullet g; readyShoot := false;
           touch_event := touch_event g; lcd := lcd g |}
    else Done tt g.

(** The shields as game.c initialises them. *)
Definition initial_shields : list _GameObj :=
  [ {| GameObj.width := 50; GameObj.height := 50;
       GameObj.border_weight := 1;
       GameObj.xPos := 100; GameObj.yPos := 50;
       GameObj.fColor := LCD_COLOR_YELLOW; GameObj.bColor := BG_COLOR;
       GameObj.type := "object";
       GameObj.x_max := 239 - 50; GameObj.y_min := 1;
       GameObj.moveRight := true; GameObj.hit := false |};
    {| GameObj.width := 30; GameObj.height := 20;
       GameObj.border_weight := 1;
       GameObj.xPos := 50; GameObj.yPos := 120;
       GameObj.fColor := LCD_COLOR_BLACK; GameObj.bColor := BG_COLOR;
       GameObj.type := "object";
       GameObj.x_max := 239 - 30; GameObj.y_min := 1;
       GameObj.moveRight := false; GameObj.hit := false |} ].

(** The globals as game.c initialises them; the two [extern] variables
    are defined elsewhere and the display starts with no call. *)
Definition initial_game (ready : bool) (touch : Z) : game :=
  {| score := 5;
     numBullets := 10;
     ufo :=
       {| GameCharacter.width := 52; GameCharacter.height := 36;
          GameCharacter.xPos := 120; GameCharacter.yPos := UFO_Y_MAX;
          GameCharacter.bitmap := space_shipBitmaps;
          GameCharacter.fColor := LCD_COLOR_RED;
          GameCharacter.bColor := LCD_COLOR_GREEN2;
          GameCharacter.type := "character";
          GameCharacter.x_max := 239 - Z.quot 52 2;
          GameCharacter.x_min := Z.quot 52 2;
          GameCharacter.moveRight := false |};
     octopus :=
       {| GameCharacter.width := 53; GameCharacter.height := 41;
          GameCharacter.xPos := 120; GameCharacter.yPos := OCTOPUS_Y_MAX;
          GameCharacter.bitmap := octopus_Bitmap;
          GameCharacter.fColor := LCD_COLOR_BLACK;
          GameCharacter.bColor := LCD_COLOR_BLUE2;
          GameCharacter.type := "character";
          GameCharacter.x_max := OCTOPUS_X_MAX;
          GameCharacter.x_min := OCTOPUS_X_MIN;
          GameCharacter.moveRight := false |};
     shieldArray := initial_shields;
     numShields := Z.of_nat (List.length initial_shields);
     bullet :=
       {| GameObj.width := 10; GameObj.height := 10;
          GameObj.border_weight := 1;
          GameObj.xPos := 0; GameObj.yPos := 0;
          GameObj.fColor := LCD_COLOR_RED; GameObj.bColor := BG_COLOR;
          GameObj.type := "object";
          GameObj.x_max := 239 - 10; GameObj.y_min := 1;
          GameObj.moveRight := false; GameObj.hit := false |};
     readyShoot := ready;
     touch_event := touch;
     lcd := [] |}.

End Game.

(** Sample values of the macros of the game, on which the examples are
    run; no general statement depends on them. *)
Definition sample_game_defines : GameDefines :=
  {| BG_COLOR := 0x07E0;
     LCD_COLOR_RED := 0xF800;
     LCD_COLOR_GREEN2 := 0x07E0;
     LCD_COLOR_BLACK := 0x0000;
     LCD_COLOR_BLUE2 := 0x001F;
     LCD_COLOR_YELLOW := 0xFFE0;
     UFO_Y_MAX := 30;
     OCTOPUS_Y_MAX := 290;
     OCTOPUS_X_MAX := 210;
     OCTOPUS_X_MIN := 27;
     space_shipBitmaps := 0x1000;
     octopus_Bitmap := 0x2000 |}.

(** *** What the statements about the game speak of *)

(** The position of the object a pointer designates, whatever its
    type. *)
Definition position (p : gptr) (g : game) : option (Z * Z) :=
  match p with
  | To_ufo =>
      Some (GameCharacter.xPos (ufo g), GameCharacter.yPos (ufo g))
  | To_octopus =>
      Some (GameCharacter.xPos (octopus g), GameCharacter.yPos (octopus g))
  | To_shield i =>
      match nth_error (shieldArray g) i with
      | Some o => Some (GameObj.xPos o, GameObj.yPos o)
      | None => None
      end
  | To_bullet => Some (GameObj.xPos (bullet g), GameObj.yPos (bullet g))
  end.

(** The type tag names the struct type of the object [ptr] designates. *)
Definition aims (type : string) (ptr : gptr) (g : game) : Prop :=
  (same_text type "character" = true /\ (ptr = To_ufo \/ ptr = To_octopus))
  \/
  (same_text type "character" = false /\ same_text type "object" = true /\
   (ptr = To_bullet \/
    exists i, ptr = To_shield i /\ (i < List.length (shieldArray g))%nat)).

(** The type tag is neither of the two the loops know. *)
Definition unknown_tag (type : string) : Prop :=
  same_text type "character" = false /\ same_text type "object" = false.

(** [n] consecutive columns from [from] leftwards, and rightwards. *)
Fixpoint leftwards (from : Z) (n : nat) : list Z :=
  match n with
  | O => []
  | S n' => from :: leftwards (from - 1) n'
  end.

Fixpoint rightwards (from : Z) (n : nat) : list Z :=
  match n with
  | O => []
  | S n' => from :: rightwards (from + 1) n'
  end.

(** Some shield meets the test of [shootBullet] for the object [o]. *)
Definition stopped_by (shields : list _GameObj)
    (o : _GameObj) : bool :=
  existsb (touches o) shields.

(** [numShields] is the number of elements of [shieldArray], as its
    initialiser makes it. *)
Definition shields_counted (g : game) : Prop :=
  numShields g = Z.of_nat (List.length (shieldArray g)).

(** [g'] differs from [g] in the bullet and the display at most. *)
Definition same_but_bullet (g g' : game) : Prop :=
  score g' = score g /\ numBullets g' = numBullets g /\
  ufo g' = ufo g /\ octopus g' = octopus g /\
  shieldArray g' = shieldArray g /\ numShields g' = numShields g /\
  readyShoot g' = readyShoot g /\ touch_event g' = touch_event g.

(** The game with another bullet. *)
Definition with_bullet (g : game) (o : _GameObj) : game :=
  {| score := score g; numBullets := numBullets g;
     ufo := ufo g; octopus := octopus g;
     shieldArray := shieldArray g; numShields := numShields g;
     bullet := o; readyShoot := readyShoot g;
     touch_event := touch_event g; lcd := lcd g |}.

(** The box [drawObject] draws for [o]. *)
Definition box_of (o : _GameObj) : lcd_call :=
  Lcd_draw_box (GameObj.xPos o) (GameObj.width o) (GameObj.yPos o)
    (GameObj.height o) (GameObj.bColor o) (GameObj.fColor o)
    (GameObj.border_weight o).

(** The box [shootBullet] erases [o] with. *)
Definition erasure_of {GD : GameDefines} (o : _GameObj) : lcd_call :=
  Lcd_draw_box (GameObj.xPos o) (GameObj.width o) (GameObj.yPos o)
    (GameObj.height o) BG_COLOR BG_COLOR (GameObj.border_weight o).

(** * Properties *)

Arguments uint8 : simpl never.
Arguments uint16 : simpl never.

(** ** The scripted bus step by step *)


Lemma idle_after_clears busy fuel bp j :
  (j < fuel)%nat -> busy (bp + j)%nat = false ->
  exists bp', idle_after busy fuel bp = Some bp'.
Proof.
  revert bp j; induction fuel as [|fuel IH]; intros bp j Hj Hb; [lia|].
  simpl; destruct (busy bp) eqn:E; [|eauto].
  destruct j as [|j]; [rewrite Nat.add_0_r in Hb; congruence|].
  apply (IH (S bp) j); [lia|].
  now replace (S bp + j)%nat with (bp + S j)%nat by lia.
Qed.

Lemma wait_while_busy_polled {D : Defines} fuel base (m : mock) :
  forall bp,
    wait_while_busy fuel base (polled m bp) =
    match idle_after (busy_at (env m)) fuel bp with
    | Some bp' => Some (tt, polled m bp')
    | None => None
    end.
Proof.
  induction fuel as [|fuel IH]; intros bp; simpl; [reflexivity|].
  unfold bind at 1; simpl.
  destruct (busy_at (env m) bp); [|reflexivity].
  apply (IH (S bp)).
Qed.

Lemma wait_while_busy_mock {D : Defines} fuel base (m : mock) :
  wait_while_busy fuel base m =
  match idle_after (busy_at (env m)) fuel (busy_polls m) with
  | Some bp => Some (tt, polled m bp)
  | None => None
  end.
Proof.
  rewrite <- (wait_while_busy_polled fuel base). now destruct m.
Qed.

Lemma poll_until_ack_mock {D : Defines} fuel iters base (m : mock) :
  poll_until_ack fuel iters base m =
  match acked_after (busy_at (env m)) (ack_at (env m)) fuel iters
          (busy_polls m) (ack_polls m) with
  | Some (n, bp) =>
      Some (status_at (env m) (n_calls m + n), probed base m n bp)
  | None => None
  end.
Proof.
  revert m; induction iters as [|iters IH]; intros m; simpl; [reflexivity|].
  unfold bind at 1; simpl.
  unfold bind at 1; rewrite wait_while_busy_mock; simpl.
  destruct (idle_after (busy_at (env m)) fuel (busy_polls m)) as [bp|];
    [|reflexivity].
  unfold bind at 1; simpl.
  destruct (ack_at (env m) (ack_polls m)); simpl.
  - unfold ret, probed; simpl.
    rewrite !Nat.add_0_r, !Nat.add_1_r. reflexivity.
  - rewrite IH; simpl.
    destruct (acked_after _ _ fuel iters bp (S (ack_polls m))) as [[n bp']|];
      [|reflexivity].
    unfold probed; simpl.
    rewrite <- app_assoc; simpl.
    rewrite !Nat.add_succ_r. reflexivity.
Qed.

Lemma eeprom_wait_for_write_mock {D : Defines} fuel base (m : mock) :
  eeprom_wait_for_write fuel base m =
  if valid_base (env m) base
  then
    match acked_after (busy_at (env m)) (ack_at (env m)) fuel fuel
            (busy_polls m) (ack_polls m) with
    | Some (n, bp) =>
        Some (status_at (env m) (S (n_calls m) + n),
              probed base
                (called m (SetSlaveAddr base MCP24LC32AT_DEV_ID I2C_WRITE))
                n bp)
    | None => None
    end
  else Some (I2C_INVALID_BASE, m).
Proof.
  unfold eeprom_wait_for_write, bind at 1; simpl.
  destruct (valid_base (env m) base); simpl; [|reflexivity].
  unfold bind; simpl. rewrite poll_until_ack_mock; reflexivity.
Qed.

Lemma byte_write_mock {D : Defines} fuel base address data (m : mock) :
  eeprom_byte_write fuel base address data m =
  match idle_after (busy_at (env m)) fuel (busy_polls m) with
  | None => None
  | Some bp =>
      let set := SetSlaveAddr base MCP24LC32AT_DEV_ID I2C_WRITE in
      let m1 := called (polled m bp) set in
      if is_ok (status_at (env m) (n_calls m))
      then
        match eeprom_wait_for_write fuel base m1 with
        | None => None
        | Some (_, m2) =>
            match tl (write_sequence base address data) with
            | c :: rest => Some (issue m2 c rest)
            | [] => None
            end
        end
      else Some (status_at (env m) (n_calls m), m1)
  end.
Proof.
  unfold eeprom_byte_write, bind at 1.
  rewrite wait_while_busy_mock.
  destruct (idle_after (busy_at (env m)) fuel (busy_polls m)) as [bp|];
    [|reflexivity].
  unfold bind at 1; simpl.
  destruct (is_ok (status_at (env m) (n_calls m))); simpl; [|reflexivity].
  unfold bind at 1.
  destruct (eeprom_wait_for_write fuel base _) as [[st m2]|]; [|reflexivity].
  unfold bind; simpl.
  destruct (is_ok (status_at (env m2) (n_calls m2))); simpl; [|reflexivity].
  destruct (is_ok (status_at (env m2) (S (n_calls m2)))); simpl;
    [|reflexivity].
  destruct (is_ok (status_at (env m2) (S (S (n_calls m2))))); reflexivity.
Qed.

Lemma byte_read_mock {D : Defines} fuel base address data (m : mock) :
  eeprom_byte_read fuel base address data m =
  match idle_after (busy_at (env m)) fuel (busy_polls m) with
  | None => None
  | Some bp =>
      match eeprom_wait_for_write fuel base (polled m bp) with
      | None => None
      | Some (_, m2) =>
          match read_sequence base address with
          | c :: rest =>
              let '(st, m3) := issue m2 c rest in
              Some ((st, cell_after (env m2) (n_calls m2) 5 data), m3)
          | [] => None
          end
      end
  end.
Proof.
  unfold eeprom_byte_read, bind at 1.
  rewrite wait_while_busy_mock.
  destruct (idle_after (busy_at (env m)) fuel (busy_polls m)) as [bp|];
    [|reflexivity].
  unfold bind at 1.
  destruct (eeprom_wait_for_write fuel base _) as [[st m2]|]; [|reflexivity].
  unfold bind; simpl.
  destruct (is_ok (status_at (env m2) (n_calls m2))); simpl; [|reflexivity].
  destruct (is_ok (status_at (env m2) (S (n_calls m2)))); simpl;
    [|reflexivity].
  destruct (is_ok (status_at (env m2) (S (S (n_calls m2))))); simpl;
    [|reflexivity].
  destruct (is_ok (status_at (env m2) (S (S (S (n_calls m2)))))); simpl;
    [|reflexivity].
  unfold answer_get; simpl.
  destruct (is_ok (status_at (env m2) (S (S (S (S (n_calls m2))))))); reflexivity.
Qed.

(** ** The poll loop and the acknowledge script *)

Lemma first_ack_unique ack ap n n' :
  first_ack ack ap n -> first_ack ack ap n' -> n = n'.
Proof.
  intros [Hn Hlt] [Hn' Hlt'].
  destruct (Nat.lt_trichotomy n n') as [L|[E|L]]; [|exact E|].
  - apply Hlt' in L; congruence.
  - apply Hlt in L; congruence.
Qed.

Lemma first_ack_shift ack ap n :
  ack ap = false -> first_ack ack (S ap) n -> first_ack ack ap (S n).
Proof.
  intros H0 [Hn Hlt]; split.
  - now replace (ap + S n)%nat with (S ap + n)%nat by lia.
  - intros [|i] Hi; [now rewrite Nat.add_0_r|].
    replace (ap + S i)%nat with (S ap + i)%nat by lia.
    apply Hlt; lia.
Qed.

Lemma acked_after_first busy ack fuel iters :
  forall bp ap n bp',
    acked_after busy ack fuel iters bp ap = Some (n, bp') ->
    first_ack ack ap n /\ (n < iters)%nat.
Proof.
  induction iters as [|iters IH]; intros bp ap n bp'; simpl; [discriminate|].
  destruct (idle_after busy fuel bp) as [bp1|]; [|discriminate].
  destruct (ack ap) eqn:Ea.
  - intros E; inversion E; subst; split; [split|lia].
    + now rewrite Nat.add_0_r.
    + intros i Hi; lia.
  - destruct (acked_after busy ack fuel iters bp1 (S ap)) as [[k bp2]|] eqn:Er;
      [|discriminate].
    intros E; inversion E; subst.
    destruct (IH _ _ _ _ Er) as [Hf Hk].
    split; [now apply first_ack_shift|lia].
Qed.

Lemma acked_after_never busy ack fuel iters :
  forall bp ap,
    (forall i, ack (ap + i)%nat = false) ->
    acked_after busy ack fuel iters bp ap = None.
Proof.
  induction iters as [|iters IH]; intros bp ap Hno; simpl; [reflexivity|].
  destruct (idle_after busy fuel bp) as [bp1|]; [|reflexivity].
  pose proof (Hno O) as H0; rewrite Nat.add_0_r in H0; rewrite H0.
  rewrite IH; [reflexivity|].
  intros i; replace (S ap + i)%nat with (ap + S i)%nat by lia; apply Hno.
Qed.

Lemma acked_after_total busy ack fuel iters :
  settles_within busy fuel ->
  forall n bp ap,
    first_ack ack ap n -> (n < iters)%nat ->
    exists bp', acked_after busy ack fuel iters bp ap = Some (n, bp').
Proof.
  intros Hs; induction iters as [|iters IH]; intros n bp ap [Hn Hlt] Hi; [lia|].
  simpl.
  destruct (Hs bp) as [j [Hj Hb]].
  destruct (idle_after_clears busy fuel bp j Hj Hb) as [bp1 ->].
  destruct n as [|n].
  - rewrite Nat.add_0_r in Hn; rewrite Hn; eauto.
  - pose proof (Hlt O ltac:(lia)) as H0; rewrite Nat.add_0_r in H0; rewrite H0.
    destruct (IH n bp1 (S ap)) as [bp2 ->]; [|lia|eauto].
    split.
    + now replace (S ap + n)%nat with (ap + S n)%nat by lia.
    + intros i Hlti; replace (S ap + i)%nat with (ap + S i)%nat by lia.
      apply Hlt; lia.
Qed.

Lemma probe_events_calls {D : Defines} sc base c k :
  map fst (probe_events sc base c k) = repeat (probe base) k.
Proof.
  revert c; induction k as [|k IH]; intros c; simpl; [reflexivity|].
  now rewrite IH.
Qed.

(** ** Calls made one after the other *)

Lemma issue_spec (m : mock) c rest :
  forall st m',
    issue m c rest = (st, m') ->
    exists evs,
      log m' = log m ++ evs /\
      short_circuited (c :: rest) st evs /\
      env m' = env m /\
      busy_polls m' = busy_polls m /\ ack_polls m' = ack_polls m.
Proof.
  revert m c; induction rest as [|c' rest IH]; intros m c st m'; simpl.
  - intros E; inversion E; subst; clear E.
    exists [(c, status_at (env m) (n_calls m))]; simpl.
    repeat split; try reflexivity.
    exists [], c; simpl; repeat split; try reflexivity.
    + intros e [].
    + exists []; reflexivity.
  - destruct (is_ok (status_at (env m) (n_calls m))) eqn:Eok.
    + intros E; apply IH in E.
      destruct E as [evs [Hlog [[done [c0 [Hd [Hall [[tail Hp] Hfull]]]]] Hrest]]].
      simpl in Hlog, Hrest.
      assert (Hs : status_at (env m) (n_calls m) = I2C_OK)
        by (destruct (status_at (env m) (n_calls m)); simpl in Eok;
            congruence).
      exists ((c, status_at (env m) (n_calls m)) :: evs).
      rewrite Hlog, <- app_assoc; simpl.
      repeat split; try tauto.
      exists ((c, status_at (env m) (n_calls m)) :: done), c0; subst evs; simpl.
      repeat split.
      * intros e [<-|Hin]; [exact Hs|now apply Hall].
      * exists tail; simpl; now rewrite <- Hp.
      * intros Hst; now rewrite (Hfull Hst).
    + intros E; inversion E; subst; clear E.
      exists [(c, status_at (env m) (n_calls m))]; simpl.
      repeat split; try reflexivity.
      exists [], c; simpl; repeat split; try reflexivity.
      * intros e [].
      * exists (c' :: rest); reflexivity.
      * intros Hst; rewrite Hst in Eok; discriminate.
Qed.

Lemma issue_status_local (m1 m2 : mock) c rest :
  n_calls m1 = n_calls m2 ->
  (forall i, (n_calls m1 <= i)%nat ->
             status_at (env m1) i = status_at (env m2) i) ->
  fst (issue m1 c rest) = fst (issue m2 c rest).
Proof.
  revert m1 m2 c; induction rest as [|c' rest IH]; intros m1 m2 c Hn Hs; simpl.
  - rewrite <- Hn; apply Hs; lia.
  - rewrite <- Hn, <- (Hs (n_calls m1)) by lia.
    destruct (is_ok (status_at (env m1) (n_calls m1))); simpl; [|reflexivity].
    apply IH; simpl; [now rewrite Hn|].
    intros i Hi; apply Hs; lia.
Qed.

(** ** The write-complete wait on the scripted bus *)

Lemma wait_valid {D : Defines} fuel base (m : mock) :
  valid_base (env m) base = true ->
  forall st m',
    eeprom_wait_for_write fuel base m = Some (st, m') ->
    exists n bp,
      first_ack (ack_at (env m)) (ack_polls m) n /\ (n < fuel)%nat /\
      st = status_at (env m) (S (n_calls m) + n) /\
      m' = probed base
             (called m (SetSlaveAddr base MCP24LC32AT_DEV_ID I2C_WRITE)) n bp.
Proof.
  intros Hv st m'; rewrite eeprom_wait_for_write_mock, Hv.
  destruct (acked_after _ _ fuel fuel _ _) as [[n bp]|] eqn:Ea; [|discriminate].
  intros E; inversion E; subst; clear E.
  apply acked_after_first in Ea; destruct Ea as [Hf Hn].
  exists n, bp; auto.
Qed.

Lemma wait_invalid {D : Defines} fuel base (m : mock) :
  valid_base (env m) base = false ->
  eeprom_wait_for_write fuel base m = Some (I2C_INVALID_BASE, m).
Proof.
  intros Hv; rewrite eeprom_wait_for_write_mock, Hv; reflexivity.
Qed.

Lemma calls_called (m : mock) c :
  calls (called m c) = calls m ++ [c].
Proof.
  unfold calls; simpl; now rewrite map_app.
Qed.

Lemma calls_probed {D : Defines} base (m : mock) n bp :
  calls (probed base
           (called m (SetSlaveAddr base MCP24LC32AT_DEV_ID I2C_WRITE)) n bp)
  = calls m ++ wait_sequence base n.
Proof.
  unfold calls, wait_sequence; simpl.
  rewrite !map_app; simpl.
  rewrite probe_events_calls, <- app_assoc; reflexivity.
Qed.

Lemma calls_polled (m : mock) bp :
  calls (polled m bp) = calls m.
Proof. reflexivity. Qed.

Lemma wait_calls_shape {D : Defines} fuel base (m : mock) st m' :
  eeprom_wait_for_write fuel base m = Some (st, m') ->
  env m' = env m /\
  exists waited,
    calls m' = calls m ++ waited /\ wait_calls (env m) base waited.
Proof.
  unfold wait_calls.
  destruct (valid_base (env m) base) eqn:Hv.
  - intros E; destruct (wait_valid fuel base m Hv st m' E)
      as [n [bp [_ [_ [_ ->]]]]].
    split; [reflexivity|].
    exists (wait_sequence base n); split; [apply calls_probed|eauto].
  - rewrite (wait_invalid fuel base m Hv).
    intros E; inversion E; subst; split; [reflexivity|].
    exists []; now rewrite app_nil_r.
Qed.

(** C4, as stated, fails: on a handle the validation refuses the wait
    returns at once although the device never acknowledges, and no
    probe is sent. *)
Lemma wait_returns_without_ack :
  let m := fresh refused_and_silent in
  (forall i, ack_at (env m) (ack_polls m + i) = false) /\
  @eeprom_wait_for_write tm4c123 mock mock_bus 1 0x40021000 m
    = Some (I2C_INVALID_BASE, m).
Proof.
  split; [intros i; reflexivity|reflexivity].
Qed.

(** C4, amended: for a handle that passes the validation and for every
    sequence of acknowledgment responses, [eeprom_wait_for_write] sends
    probes exactly until the first acknowledgment.  When it returns,
    the [n] acknowledge reads before the last all answered false, the
    last answered true, and the calls made are the address-set and
    [n + 1] probes, one per read; when the device never acknowledges it
    does not return, whatever the iteration budget; when the first
    acknowledgment comes after [n] refusals and the busy flag settles,
    it does return. *)
Theorem wait_probes_until_first_ack {D : Defines} fuel base (m : mock) :
  valid_base (env m) base = true ->
  (forall st m',
      eeprom_wait_for_write fuel base m = Some (st, m') ->
      exists n,
        first_ack (ack_at (env m)) (ack_polls m) n /\
        ack_polls m' = (ack_polls m + S n)%nat /\
        calls m' = calls m ++ wait_sequence base n) /\
  ((forall i, ack_at (env m) (ack_polls m + i) = false) ->
   eeprom_wait_for_write fuel base m = None) /\
  (forall n,
      first_ack (ack_at (env m)) (ack_polls m) n ->
      (n < fuel)%nat -> settles_within (busy_at (env m)) fuel ->
      exists st m', eeprom_wait_for_write fuel base m = Some (st, m')).
Proof.
  intros Hv; repeat split.
  - intros st m' E.
    destruct (wait_valid fuel base m Hv st m' E) as [n [bp [Hf [_ [_ ->]]]]].
    exists n; repeat split; try apply Hf.
    apply calls_probed.
  - intros Hno; rewrite eeprom_wait_for_write_mock, Hv.
    now rewrite acked_after_never.
  - intros n Hf Hn Hs; rewrite eeprom_wait_for_write_mock, Hv.
    destruct (acked_after_total _ (ack_at (env m)) fuel fuel Hs n
                (busy_polls m) (ack_polls m) Hf Hn) as [bp ->].
    eauto.
Qed.

(** C4 on a device that acknowledges the third probe. *)
Lemma wait_probes_until_first_ack_witness :
  valid_base (ready_after 2) 0x40021000 = true /\
  exists st m',
    @eeprom_wait_for_write tm4c123 mock mock_bus 3 0x40021000
      (fresh (ready_after 2)) = Some (st, m').
Proof.
  split; [reflexivity|].
  apply (proj2 (proj2 (@wait_probes_until_first_ack tm4c123 3 0x40021000
                         (fresh (ready_after 2)) eq_refl)) 2%nat).
  - split; [reflexivity|].
    intros [|[|i]] Hi; [reflexivity|reflexivity|lia].
  - lia.
  - intros bp; exists O; split; [lia|reflexivity].
Defined.

(** ** A refused first address-set *)

(** C6: when the first address-set of [eeprom_byte_write] is given a
    status other than ok, the call returns that status and the only
    call it has made is that address-set: no byte is sent.  It does
    return as soon as the busy flag is found clear within the budget
    of the initial busy-wait. *)
Theorem byte_write_stops_on_refused_address {D : Defines}
    fuel base address data (m : mock) s :
  status_at (env m) (n_calls m) = s -> s <> I2C_OK ->
  (forall st m',
      eeprom_byte_write fuel base address data m = Some (st, m') ->
      st = s /\
      log m' = log m ++ [(SetSlaveAddr base MCP24LC32AT_DEV_ID I2C_WRITE, s)])
  /\
  (forall j,
      (j < fuel)%nat -> busy_at (env m) (busy_polls m + j) = false ->
      exists m', eeprom_byte_write fuel base address data m = Some (s, m')).
Proof.
  intros Hs Hne.
  assert (Hok : is_ok (status_at (env m) (n_calls m)) = false)
    by (rewrite Hs; destruct s; simpl; congruence).
  split.
  - intros st m'; rewrite byte_write_mock.
    destruct (idle_after _ fuel _) as [bp|]; [|discriminate].
    simpl; rewrite Hok.
    intros E; inversion E; subst; auto.
  - intros j Hj Hb; rewrite byte_write_mock.
    destruct (idle_after_clears _ fuel _ j Hj Hb) as [bp ->].
    simpl; rewrite Hok, Hs; eauto.
Qed.

(** C6 on a bus that refuses the first call after two busy reads. *)
Lemma byte_write_stops_on_refused_address_witness :
  status_at refuses_first_call 0 = I2C_NO_ACK /\
  I2C_NO_ACK <> I2C_OK /\
  exists m',
    @eeprom_byte_write tm4c123 mock mock_bus 3 0x40021000 490 0x54
      (fresh refuses_first_call) = Some (I2C_NO_ACK, m').
Proof.
  split; [reflexivity|]. split; [discriminate|].
  apply (proj2 (@byte_write_stops_on_refused_address tm4c123 3 0x40021000
                  490 0x54 (fresh refuses_first_call) I2C_NO_ACK
                  eq_refl ltac:(discriminate)) 2%nat).
  - lia.
  - reflexivity.
Defined.

(** ** The shape of a byte transaction on the scripted bus *)

Arguments issue : simpl never.
Arguments cell_after : simpl never.

Lemma wait_log_shape {D : Defines} fuel base (m : mock) st m' :
  eeprom_wait_for_write fuel base m = Some (st, m') ->
  env m' = env m /\
  exists waited,
    log m' = log m ++ waited /\ wait_calls (env m) base (map fst waited).
Proof.
  unfold wait_calls.
  destruct (valid_base (env m) base) eqn:Hv.
  - intros E; destruct (wait_valid fuel base m Hv st m' E)
      as [n [bp [_ [_ [_ ->]]]]].
    split; [reflexivity|]; simpl.
    eexists; rewrite <- app_assoc; split; [reflexivity|].
    exists n; simpl; now rewrite probe_events_calls.
  - rewrite (wait_invalid fuel base m Hv).
    intros E; inversion E; subst; split; [reflexivity|].
    exists []; now rewrite app_nil_r.
Qed.

Lemma short_circuited_cons sequence st direct c :
  short_circuited sequence st direct ->
  short_circuited (c :: sequence) st ((c, I2C_OK) :: direct).
Proof.
  intros [done [c0 [Hd [Hall [[tail Hp] Hfull]]]]].
  exists ((c, I2C_OK) :: done), c0; subst direct; repeat split.
  - intros e [<-|Hin]; [reflexivity|now apply Hall].
  - exists tail; simpl; now rewrite <- Hp.
  - intros Hst; simpl; now rewrite (Hfull Hst).
Qed.

Lemma short_circuited_single c rest st :
  st <> I2C_OK -> short_circuited (c :: rest) st [(c, st)].
Proof.
  intros Hne; exists [], c; repeat split.
  - intros e [].
  - exists rest; reflexivity.
  - intros Hst; contradiction.
Qed.

Lemma is_ok_true s : is_ok s = true -> s = I2C_OK.
Proof. destruct s; simpl; congruence. Qed.

Lemma is_ok_false s : is_ok s = false -> s <> I2C_OK.
Proof. destruct s; simpl; congruence. Qed.

Lemma byte_write_shape {D : Defines} fuel base address data (m : mock) st m' :
  eeprom_byte_write fuel base address data m = Some (st, m') ->
  let set := SetSlaveAddr base MCP24LC32AT_DEV_ID I2C_WRITE in
  let s := status_at (env m) (n_calls m) in
  exists bp,
    idle_after (busy_at (env m)) fuel (busy_polls m) = Some bp /\
    ((s <> I2C_OK /\ st = s /\ m' = called (polled m bp) set) \/
     (s = I2C_OK /\
      exists stw m2 evs,
        eeprom_wait_for_write fuel base (called (polled m bp) set)
          = Some (stw, m2) /\
        log m' = log m2 ++ evs /\
        busy_polls m' = busy_polls m2 /\
        short_circuited (tl (write_sequence base address data)) st evs)).
Proof.
  rewrite byte_write_mock; simpl.
  destruct (idle_after _ fuel _) as [bp|]; [|discriminate].
  intros E; exists bp; split; [reflexivity|].
  destruct (is_ok (status_at (env m) (n_calls m))) eqn:Eok.
  - right; split; [now apply is_ok_true|].
    destruct (eeprom_wait_for_write fuel base _) as [[stw m2]|] eqn:Ew;
      [|discriminate].
    inversion E as [Ei]; clear E.
    apply issue_spec in Ei; destruct Ei as [evs [Hlog [Hsc [_ [Hb _]]]]].
    exists stw, m2, evs; auto.
  - left; inversion E; subst; split; [now apply is_ok_false|auto].
Qed.

Lemma byte_read_shape {D : Defines} fuel base address data (m : mock)
    st v m' :
  eeprom_byte_read fuel base address data m = Some ((st, v), m') ->
  exists bp stw m2 evs,
    idle_after (busy_at (env m)) fuel (busy_polls m) = Some bp /\
    eeprom_wait_for_write fuel base (polled m bp) = Some (stw, m2) /\
    log m' = log m2 ++ evs /\
    busy_polls m' = busy_polls m2 /\
    short_circuited (read_sequence base address) st evs /\
    v = cell_after (env m2) (n_calls m2) 5 data.
Proof.
  rewrite byte_read_mock; simpl.
  destruct (idle_after _ fuel _) as [bp|]; [|discriminate].
  destruct (eeprom_wait_for_write fuel base _) as [[stw m2]|] eqn:Ew;
    [|discriminate].
  destruct (issue m2 _ _) as [st3 m3] eqn:Ei.
  intros E; inversion E; subst; clear E.
  apply issue_spec in Ei; destruct Ei as [evs [Hlog [Hsc [_ [Hb _]]]]].
  exists bp, stw, m2, evs; repeat split; auto.
Qed.

Lemma byte_write_returns {D : Defines} fuel base address data (m : mock) n :
  settles_within (busy_at (env m)) fuel ->
  first_ack (ack_at (env m)) (ack_polls m) n -> (n < fuel)%nat ->
  exists st m', eeprom_byte_write fuel base address data m = Some (st, m').
Proof.
  intros Hs Hf Hn; rewrite byte_write_mock.
  destruct (Hs (busy_polls m)) as [j [Hj Hb]].
  destruct (idle_after_clears _ fuel _ j Hj Hb) as [bp ->]; simpl.
  destruct (is_ok (status_at (env m) (n_calls m))); [|eauto].
  rewrite eeprom_wait_for_write_mock; simpl.
  destruct (valid_base (env m) base).
  - destruct (acked_after_total _ (ack_at (env m)) fuel fuel Hs n bp
                (ack_polls m) Hf Hn) as [bp' ->].
    destruct (issue _ _ _) as [st m']; eauto.
  - destruct (issue _ _ _) as [st m']; eauto.
Qed.

Lemma byte_read_returns {D : Defines} fuel base address data (m : mock) n :
  settles_within (busy_at (env m)) fuel ->
  first_ack (ack_at (env m)) (ack_polls m) n -> (n < fuel)%nat ->
  exists st v m',
    eeprom_byte_read fuel base address data m = Some ((st, v), m').
Proof.
  intros Hs Hf Hn; rewrite byte_read_mock.
  destruct (Hs (busy_polls m)) as [j [Hj Hb]].
  destruct (idle_after_clears _ fuel _ j Hj Hb) as [bp ->]; simpl.
  rewrite eeprom_wait_for_write_mock; simpl.
  destruct (valid_base (env m) base).
  - destruct (acked_after_total _ (ack_at (env m)) fuel fuel Hs n bp
                (ack_polls m) Hf Hn) as [bp' ->].
    destruct (issue _ _ _) as [st m']; eauto.
  - destruct (issue _ _ _) as [st m']; eauto.
Qed.

(** ** Short-circuit on failure *)

(** C2, as stated, fails: with the device in a write cycle two probes
    of the write-complete wait are given a status other than ok, and
    [eeprom_byte_write] goes on to send the address and the data and
    returns ok. *)
Lemma byte_write_continues_after_failed_probe :
  exists m',
    @eeprom_byte_write tm4c123 mock mock_bus 3 0x40021000 490 0x54
      (fresh in_write_cycle) = Some (I2C_OK, m') /\
    ~ stops_at_first_failure I2C_OK (log m').
Proof.
  eexists; split; [vm_compute; reflexivity|].
  intros H.
  destruct (H [(SetSlaveAddr 0x40021000 0x50 I2C_WRITE, I2C_OK);
               (SetSlaveAddr 0x40021000 0x50 I2C_WRITE, I2C_OK)]
              (SendByte 0x40021000 0 7, I2C_NO_ACK)
              [(SendByte 0x40021000 0 7, I2C_NO_ACK);
               (SendByte 0x40021000 0 7, I2C_OK);
               (SendByte 0x40021000 1 3, I2C_OK);
               (SendByte 0x40021000 234 1, I2C_OK);
               (SendByte 0x40021000 0x54 5, I2C_OK)]
              eq_refl ltac:(discriminate)) as [Hpost _].
  discriminate.
Qed.

(** C2, amended: [eeprom_byte_write] and [eeprom_byte_read]
    short-circuit on the first status other than ok among the calls
    they make themselves: that status is returned and the log ends
    with that call, so that no call at all follows it.  The calls of
    the write-complete wait sit between them with statuses that decide
    nothing: in the write they follow the first address-set when that
    one was given ok, and are absent when it was not; in the read they
    come first.  When every call they make themselves is given ok the
    whole sequence has been issued and the result is the status of its
    last call.  Both calls return once the busy flag settles and the
    device acknowledges within the budget. *)
Theorem byte_transactions_short_circuit {D : Defines}
    fuel base address data (m : mock) :
  (forall st m',
      eeprom_byte_write fuel base address data m = Some (st, m') ->
      exists direct waited,
        log m' = log m ++ firstn 1 direct ++ waited ++ skipn 1 direct /\
        short_circuited (write_sequence base address data) st direct /\
        match direct with
        | (_, I2C_OK) :: _ => wait_calls (env m) base (map fst waited)
        | _ => waited = []
        end /\
        exists before c, log m' = log m ++ before ++ [(c, st)]) /\
  (forall st v m',
      eeprom_byte_read fuel base address data m = Some ((st, v), m') ->
      exists direct waited,
        log m' = log m ++ waited ++ direct /\
        short_circuited (read_sequence base address) st direct /\
        wait_calls (env m) base (map fst waited) /\
        exists before c, log m' = log m ++ before ++ [(c, st)]) /\
  (forall n,
      settles_within (busy_at (env m)) fuel ->
      first_ack (ack_at (env m)) (ack_polls m) n -> (n < fuel)%nat ->
      (exists st m',
          eeprom_byte_write fuel base address data m = Some (st, m')) /\
      (exists st v m',
          eeprom_byte_read fuel base address data m = Some ((st, v), m'))).
Proof.
  split; [|split].
  3: { intros n Hs Hf Hn; split;
       [now apply (byte_write_returns _ _ _ _ _ n)
       |now apply (byte_read_returns _ _ _ _ _ n)]. }
  - intros st m' E; apply byte_write_shape in E.
    destruct E as [bp [_ [[Hne [-> ->]]|[Hs [stw [m2 [evs [Hw [Hl [_ Hsc]]]]]]]]]].
    + eexists [(_, _)], []; simpl.
      split; [reflexivity|].
      split; [now apply short_circuited_single|].
      split; [|exists [], (SetSlaveAddr base MCP24LC32AT_DEV_ID I2C_WRITE);
               reflexivity].
      destruct (status_at (env m) (n_calls m));
        [contradiction|reflexivity..].
    + apply wait_log_shape in Hw; destruct Hw as [_ [waited [Hlw Hwc]]].
      simpl in Hlw, Hwc; rewrite Hs in Hlw.
      exists ((SetSlaveAddr base MCP24LC32AT_DEV_ID I2C_WRITE, I2C_OK) :: evs),
        waited; simpl.
      split; [rewrite Hl, Hlw, <- !app_assoc; reflexivity|].
      split; [now apply (short_circuited_cons _ _ _ _ Hsc)|].
      split; [exact Hwc|].
      destruct Hsc as [done [c [Hd _]]].
      exists ((SetSlaveAddr base MCP24LC32AT_DEV_ID I2C_WRITE, I2C_OK)
                :: waited ++ done), c.
      rewrite Hl, Hlw, Hd, <- !app_assoc; simpl.
      rewrite <- !app_assoc; reflexivity.
  - intros st v m' E; apply byte_read_shape in E.
    destruct E as [bp [stw [m2 [evs [_ [Hw [Hl [_ [Hsc _]]]]]]]]].
    apply wait_log_shape in Hw; destruct Hw as [_ [waited [Hlw Hwc]]].
    simpl in Hlw, Hwc.
    exists evs, waited.
    split; [rewrite Hl, Hlw, <- app_assoc; reflexivity|].
    split; [exact Hsc|].
    split; [exact Hwc|].
    destruct Hsc as [done [c [Hd _]]].
    exists (waited ++ done), c.
    rewrite Hl, Hlw, Hd, <- !app_assoc; reflexivity.
Qed.

(** C2 on a device in a write cycle: the direct calls all succeed. *)
Lemma byte_transactions_short_circuit_witness :
  exists m' direct waited,
    @eeprom_byte_write tm4c123 mock mock_bus 3 0x40021000 490 0x54
      (fresh in_write_cycle) = Some (I2C_OK, m') /\
    log m' = firstn 1 direct ++ waited ++ skipn 1 direct /\
    short_circuited (@write_sequence tm4c123 0x40021000 490 0x54)
      I2C_OK direct.
Proof.
  assert (E : exists m',
             @eeprom_byte_write tm4c123 mock mock_bus 3 0x40021000 490 0x54
               (fresh in_write_cycle) = Some (I2C_OK, m'))
    by (eexists; vm_compute; reflexivity).
  destruct E as [m' E].
  destruct (proj1 (@byte_transactions_short_circuit tm4c123 3 0x40021000
                     490 0x54 (fresh in_write_cycle)) I2C_OK m' E)
    as [direct [waited [Hl [Hs _]]]].
  exists m', direct, waited; split; [exact E|].
  split; [exact Hl|exact Hs].
Defined.


(** ** The order of the calls of a byte read *)

(** C5, as stated, fails: on a bus where every call succeeds and the
    device acknowledges at once, the call log of one
    [eeprom_byte_read] is not the five-call sequence: the address-set
    and the probe of the write-complete wait come first. *)
Lemma byte_read_log_has_more_than_five_calls :
  exists v m',
    @eeprom_byte_read tm4c123 mock mock_bus 1 0x40021000 490 0
      (fresh (ready_after 0)) = Some ((I2C_OK, v), m') /\
    calls m' =
      SetSlaveAddr 0x40021000 0x50 I2C_WRITE
        :: SendByte 0x40021000 0 7
        :: @read_sequence tm4c123 0x40021000 490 /\
    calls m' <> @read_sequence tm4c123 0x40021000 490.
Proof.
  eexists; eexists; split; [vm_compute; reflexivity|].
  split; [reflexivity|discriminate].
Qed.

(** C5, amended: the call log of one [eeprom_byte_read] is the calls of
    the write-complete wait (none when the handle is refused, else an
    address-set in write mode and the probes) followed by the calls the
    read makes itself, which run through the sequence set-write-addr,
    send(high), send(low), set-read-addr, get-byte in that order.  Of
    the calls the read makes itself every one but the last was given
    ok and the last was given the status returned: all five have been
    made when that status is ok, and otherwise they are an initial
    segment that ends at the one call that failed.  The address bytes
    are thus sent in write mode before the switch to read mode.  The
    read returns once the busy flag settles and the device
    acknowledges within the budget. *)
Theorem byte_read_call_order {D : Defines}
    fuel base address data (m : mock) :
  (forall st v m',
      eeprom_byte_read fuel base address data m = Some ((st, v), m') ->
      exists waited done c,
        let direct := done ++ [(c, st)] in
        log m' = log m ++ waited ++ direct /\
        calls m' = calls m ++ map fst waited ++ map fst direct /\
        wait_calls (env m) base (map fst waited) /\
        (forall e, In e done -> snd e = I2C_OK) /\
        prefix_of (map fst direct) (read_sequence base address) /\
        (st = I2C_OK -> map fst direct = read_sequence base address)) /\
  (forall n,
      settles_within (busy_at (env m)) fuel ->
      first_ack (ack_at (env m)) (ack_polls m) n -> (n < fuel)%nat ->
      exists st v m',
        eeprom_byte_read fuel base address data m = Some ((st, v), m')).
Proof.
  split; [|intros n Hs Hf Hn; now apply (byte_read_returns _ _ _ _ _ n)].
  intros st v m' E; apply byte_read_shape in E.
  destruct E as [bp [stw [m2 [evs [_ [Hw [Hl [_ [Hsc _]]]]]]]]].
  apply wait_log_shape in Hw; destruct Hw as [_ [waited [Hlw Hwc]]].
  destruct Hsc as [done [c [Hd [Hall [Hp Hfull]]]]].
  subst evs; exists waited, done, c; cbv zeta.
  assert (Hlog : log m' = log m ++ waited ++ done ++ [(c, st)])
    by (simpl in Hlw; rewrite Hl, Hlw, <- app_assoc; reflexivity).
  split; [exact Hlog|].
  split; [unfold calls; rewrite Hlog, !map_app; reflexivity|].
  split; [exact Hwc|].
  split; [exact Hall|].
  split; [exact Hp|exact Hfull].
Qed.

(** C5 on a device that acknowledges the second probe. *)
Lemma byte_read_call_order_witness :
  exists v m' waited,
    @eeprom_byte_read tm4c123 mock mock_bus 2 0x40021000 490 0
      (fresh (ready_after 1)) = Some ((I2C_OK, v), m') /\
    calls m' = waited ++ @read_sequence tm4c123 0x40021000 490.
Proof.
  assert (E : exists v m',
             @eeprom_byte_read tm4c123 mock mock_bus 2 0x40021000 490 0
               (fresh (ready_after 1)) = Some ((I2C_OK, v), m'))
    by (eexists; eexists; vm_compute; reflexivity).
  destruct E as [v [m' E]].
  destruct (proj1 (@byte_read_call_order tm4c123 2 0x40021000 490 0
                     (fresh (ready_after 1))) I2C_OK v m' E)
    as [waited [done [c [_ [Hc [_ [_ [_ Hfull]]]]]]]].
  exists v, m', (map fst waited); split; [exact E|].
  rewrite <- (Hfull eq_refl); exact Hc.
Defined.

(** ** The probe of the write-complete wait *)

(** C10, as stated, fails: on a handle the validation refuses the
    write-complete wait is reached and returns without a probe.  When
    the primitives refuse the handle too, the read stops at its own
    address-set; when they answer ok, its call log is the five-call
    sequence alone.  Neither log holds a probe. *)
Lemma byte_read_without_probe :
  (exists m',
      @eeprom_byte_read tm4c123 mock mock_bus 1 0x40021000 490 0
        (fresh refused_throughout) = Some ((I2C_INVALID_BASE, 0), m') /\
      calls m' = [SetSlaveAddr 0x40021000 0x50 I2C_WRITE] /\
      ~ In (@probe tm4c123 0x40021000) (calls m')) /\
  (exists v m',
      @eeprom_byte_read tm4c123 mock mock_bus 1 0x40021000 490 0
        (fresh refused_but_ok) = Some ((I2C_OK, v), m') /\
      calls m' = @read_sequence tm4c123 0x40021000 490 /\
      ~ In (@probe tm4c123 0x40021000) (calls m')).
Proof.
  split.
  - eexists; split; [vm_compute; reflexivity|].
    split; [reflexivity|].
    simpl; intros [H|[]]; discriminate.
  - eexists; eexists; split; [vm_compute; reflexivity|].
    split; [reflexivity|].
    simpl; intros [H|[H|[H|[H|[H|[]]]]]]; discriminate.
Qed.

(** C10, amended: on a handle that passes the validation, every
    [eeprom_byte_write] whose first address-set succeeded and every
    [eeprom_byte_read] has, when it returns, issued the calls of the
    write-complete wait, an address-set in write mode followed by
    [n + 1] probes with [n] the number of unacknowledged ones, before
    any address byte: at least one probe even when the device
    acknowledges at once.  Both calls return once the busy flag settles
    and the device acknowledges within the budget. *)
Theorem probe_precedes_address_bytes {D : Defines}
    fuel base address data (m : mock) :
  valid_base (env m) base = true ->
  (forall st m',
      eeprom_byte_write fuel base address data m = Some (st, m') ->
      status_at (env m) (n_calls m) = I2C_OK ->
      exists n direct,
        first_ack (ack_at (env m)) (ack_polls m) n /\
        calls m' =
          calls m ++ [SetSlaveAddr base MCP24LC32AT_DEV_ID I2C_WRITE]
                  ++ wait_sequence base n ++ direct /\
        direct <> [] /\
        prefix_of direct (tl (write_sequence base address data))) /\
  (forall st v m',
      eeprom_byte_read fuel base address data m = Some ((st, v), m') ->
      exists n direct,
        first_ack (ack_at (env m)) (ack_polls m) n /\
        calls m' = calls m ++ wait_sequence base n ++ direct /\
        direct <> [] /\
        prefix_of direct (read_sequence base address)) /\
  (forall n,
      settles_within (busy_at (env m)) fuel ->
      first_ack (ack_at (env m)) (ack_polls m) n -> (n < fuel)%nat ->
      (exists st m',
          eeprom_byte_write fuel base address data m = Some (st, m')) /\
      (exists st v m',
          eeprom_byte_read fuel base address data m = Some ((st, v), m'))).
Proof.
  intros Hv; split; [|split].
  3: { intros n Hs Hf Hn; split;
       [now apply (byte_write_returns _ _ _ _ _ n)
       |now apply (byte_read_returns _ _ _ _ _ n)]. }
  - intros st m' E Hs; apply byte_write_shape in E.
    destruct E as [bp [_ [[Hne _]|[_ [stw [m2 [evs [Hw [Hl [_ Hsc]]]]]]]]]];
      [contradiction|].
    apply wait_valid in Hw; [|exact Hv].
    destruct Hw as [n [bp' [Hf [_ [_ ->]]]]].
    destruct Hsc as [done [c [Hd [_ [Hp _]]]]].
    exists n, (map fst evs); repeat split; try apply Hf; auto.
    + unfold calls at 1; rewrite Hl, map_app.
      fold (calls (probed base
                     (called (called (polled m bp)
                        (SetSlaveAddr base MCP24LC32AT_DEV_ID I2C_WRITE))
                        (SetSlaveAddr base MCP24LC32AT_DEV_ID I2C_WRITE))
                     n bp')).
      rewrite calls_probed, calls_called, calls_polled, <- !app_assoc.
      reflexivity.
    + subst evs; rewrite map_app; simpl.
      intros Hnil; apply app_eq_nil in Hnil; destruct Hnil; discriminate.
  - intros st v m' E; apply byte_read_shape in E.
    destruct E as [bp [stw [m2 [evs [_ [Hw [Hl [_ [Hsc _]]]]]]]]].
    apply wait_valid in Hw; [|exact Hv].
    destruct Hw as [n [bp' [Hf [_ [_ ->]]]]].
    destruct Hsc as [done [c [Hd [_ [Hp _]]]]].
    exists n, (map fst evs); repeat split; try apply Hf; auto.
    + unfold calls at 1; rewrite Hl, map_app.
      fold (calls (probed base
                     (called (polled m bp)
                        (SetSlaveAddr base MCP24LC32AT_DEV_ID I2C_WRITE))
                     n bp')).
      rewrite calls_probed, calls_polled, <- !app_assoc.
      reflexivity.
    + subst evs; rewrite map_app; simpl.
      intros Hnil; apply app_eq_nil in Hnil; destruct Hnil; discriminate.
Qed.

(** C10 on a device that acknowledges the first probe. *)
Lemma probe_precedes_address_bytes_witness :
  valid_base (ready_after 0) 0x40021000 = true /\
  exists v m' n direct,
    @eeprom_byte_read tm4c123 mock mock_bus 1 0x40021000 490 0
      (fresh (ready_after 0)) = Some ((I2C_OK, v), m') /\
    calls m' = @wait_sequence tm4c123 0x40021000 n ++ direct.
Proof.
  split; [reflexivity|].
  assert (E : exists v m',
             @eeprom_byte_read tm4c123 mock mock_bus 1 0x40021000 490 0
               (fresh (ready_after 0)) = Some ((I2C_OK, v), m'))
    by (eexists; eexists; vm_compute; reflexivity).
  destruct E as [v [m' E]].
  destruct (proj1 (proj2 (@probe_precedes_address_bytes tm4c123 1
                            0x40021000 490 0
                            (fresh (ready_after 0)) eq_refl)) I2C_OK v m' E)
    as [n [direct [_ [Hc _]]]].
  exists v, m', n, direct; split; [exact E|exact Hc].
Defined.


(** ** Validation of the bus handle *)





(** ** The status of the write-complete wait *)

Lemma with_statuses_outside sc lo hi f i :
  (i < lo \/ hi <= i)%nat ->
  status_at (with_statuses sc lo hi f) i = status_at sc i.
Proof.
  intros H; simpl.
  destruct (Nat.leb lo i) eqn:E1; simpl; [|reflexivity].
  destruct (Nat.ltb i hi) eqn:E2; [|reflexivity].
  apply Nat.leb_le in E1; apply Nat.ltb_lt in E2; lia.
Qed.

Lemma with_statuses_inside sc lo hi f i :
  (lo <= i < hi)%nat ->
  status_at (with_statuses sc lo hi f) i = f i.
Proof.
  intros [H1 H2]; simpl.
  apply Nat.leb_le in H1; apply Nat.ltb_lt in H2.
  now rewrite H1, H2.
Qed.

Lemma cell_after_local sc1 sc2 count :
  forall c data,
    (forall i, (c <= i)%nat -> status_at sc1 i = status_at sc2 i) ->
    byte_at sc1 = byte_at sc2 ->
    cell_after sc1 c count data = cell_after sc2 c count data.
Proof.
  induction count as [|count IH]; intros c data Hs Hb; [reflexivity|].
  destruct count as [|count].
  { change (byte_at sc1 c data = byte_at sc2 c data); now rewrite Hb. }
  change (cell_after sc1 c (S (S count)) data)
    with (if is_ok (status_at sc1 c)
          then cell_after sc1 (S c) (S count) data else data).
  change (cell_after sc2 c (S (S count)) data)
    with (if is_ok (status_at sc2 c)
          then cell_after sc2 (S c) (S count) data else data).
  rewrite (Hs c) by lia.
  destruct (is_ok (status_at sc2 c)); [|reflexivity].
  apply IH; [|exact Hb].
  intros i Hi; apply Hs; lia.
Qed.

(** C3: the status [eeprom_wait_for_write] returns is discarded by both
    callers.  On a handle that passes the validation, with the first
    acknowledgment after [n] refusals, the wait returns the status the
    bus gave to its last probe, whatever that is; and replacing the
    statuses the bus gives to the calls of the wait (its address-set
    and its [n + 1] probes) by any others leaves the value returned by
    [eeprom_byte_write] and by [eeprom_byte_read] unchanged.  Both do
    return a value once the busy flag settles and [n] is within the
    budget. *)
Theorem wait_status_is_discarded {D : Defines}
    fuel base address data (m : mock) n f :
  valid_base (env m) base = true ->
  first_ack (ack_at (env m)) (ack_polls m) n ->
  (forall st m',
      eeprom_wait_for_write fuel base
        (on_script m
           (with_statuses (env m) (n_calls m) (n_calls m + 2 + n) f))
      = Some (st, m') ->
      st = f (n_calls m + 1 + n)%nat /\
      n_calls m' = (n_calls m + 2 + n)%nat) /\
  returned
    (eeprom_byte_write fuel base address data
       (on_script m
          (with_statuses (env m) (n_calls m + 1) (n_calls m + 3 + n) f)))
  = returned (eeprom_byte_write fuel base address data m) /\
  returned
    (eeprom_byte_read fuel base address data
       (on_script m
          (with_statuses (env m) (n_calls m) (n_calls m + 2 + n) f)))
  = returned (eeprom_byte_read fuel base address data m) /\
  (settles_within (busy_at (env m)) fuel -> (n < fuel)%nat ->
   (exists st m',
       eeprom_byte_write fuel base address data m = Some (st, m')) /\
   (exists st v m',
       eeprom_byte_read fuel base address data m = Some ((st, v), m'))).
Proof.
  intros Hv Hf; split; [|split; [|split]].
  4: { intros Hs Hn; split;
       [now apply (byte_write_returns _ _ _ _ _ n)
       |now apply (byte_read_returns _ _ _ _ _ n)]. }
  - intros st m' E.
    apply wait_valid in E; [|exact Hv].
    destruct E as [n' [bp [Hf' [_ [-> ->]]]]].
    assert (n' = n) by (eapply first_ack_unique; [exact Hf'|exact Hf]).
    subst n'; split.
    + unfold on_script, env, n_calls.
      rewrite with_statuses_inside by lia.
      f_equal; lia.
    + simpl; lia.
  - rewrite !byte_write_mock.
    change (busy_at (env (on_script m ?sc))) with (busy_at (env m)).
    change (busy_polls (on_script m ?sc)) with (busy_polls m).
    destruct (idle_after (busy_at (env m)) fuel (busy_polls m)) as [bp|];
      [|reflexivity].
    cbv zeta.
    change (n_calls (on_script m ?sc)) with (n_calls m).
    change (env (on_script m ?sc)) with sc.
    rewrite with_statuses_outside by lia.
    destruct (is_ok (status_at (env m) (n_calls m))); [|reflexivity].
    rewrite !eeprom_wait_for_write_mock.
    cbn [env called polled on_script valid_base with_statuses busy_at ack_at
         busy_polls ack_polls].
    rewrite Hv.
    destruct (acked_after _ _ fuel fuel bp (ack_polls m)) as [[n' bp']|] eqn:Ea;
      [|reflexivity].
    apply acked_after_first in Ea; destruct Ea as [Hf' _].
    assert (n' = n) by (eapply first_ack_unique; [exact Hf'|exact Hf]).
    subst n'.
    cbn [tl write_sequence returned option_map fst].
    f_equal; apply issue_status_local; [reflexivity|].
    intros i Hi; cbn [env probed called polled on_script n_calls] in Hi |- *.
    apply with_statuses_outside; lia.
  - rewrite !byte_read_mock.
    change (busy_at (env (on_script m ?sc))) with (busy_at (env m)).
    change (busy_polls (on_script m ?sc)) with (busy_polls m).
    destruct (idle_after (busy_at (env m)) fuel (busy_polls m)) as [bp|];
      [|reflexivity].
    rewrite !eeprom_wait_for_write_mock.
    cbn [env called polled on_script valid_base with_statuses busy_at ack_at
         busy_polls ack_polls].
    rewrite Hv.
    destruct (acked_after _ _ fuel fuel bp (ack_polls m)) as [[n' bp']|] eqn:Ea;
      [|reflexivity].
    apply acked_after_first in Ea; destruct Ea as [Hf' _].
    assert (n' = n) by (eapply first_ack_unique; [exact Hf'|exact Hf]).
    subst n'.
    cbn [read_sequence].
    match goal with
    | |- returned (let '(_, _) := issue ?a ?c ?r in _) =
         returned (let '(_, _) := issue ?b ?c ?r in _) =>
        pose proof (issue_status_local a b c r) as Hi;
        destruct (issue a c r) as [st1 m1];
        destruct (issue b c r) as [st2 m2]
    end.
    cbn [returned option_map fst] in *.
    rewrite Hi; [f_equal; f_equal| reflexivity |].
    + apply cell_after_local; [|reflexivity].
      intros i Hle; cbn [env probed called polled on_script n_calls] in Hle |- *.
      apply with_statuses_outside; lia.
    + intros i Hle; cbn [env probed called polled on_script n_calls] in Hle |- *.
      apply with_statuses_outside; lia.
Qed.

(** C3 on a device in a write cycle, with every status of the wait
    replaced by a controller error. *)
Lemma wait_status_is_discarded_witness :
  valid_base (env (fresh in_write_cycle)) 0x40021000 = true /\
  first_ack (ack_at in_write_cycle) 0 2 /\
  returned
    (@eeprom_byte_write tm4c123 mock mock_bus 3 0x40021000 490 0x54
       (on_script (fresh in_write_cycle)
          (with_statuses in_write_cycle 1 5 (fun _ => I2C_BUS_ERROR))))
  = Some I2C_OK.
Proof.
  assert (Hf : first_ack (ack_at in_write_cycle) 0 2).
  { split; [reflexivity|].
    intros [|[|i]] Hi; [reflexivity|reflexivity|lia]. }
  split; [reflexivity|]. split; [exact Hf|].
  destruct (@wait_status_is_discarded tm4c123 3 0x40021000 490 0x54
              (fresh in_write_cycle) 2 (fun _ => I2C_BUS_ERROR) eq_refl Hf)
    as [_ [Hw _]].
  etransitivity; [exact Hw|vm_compute; reflexivity].
Defined.

(** ** Pin configuration *)

Ltac use_step Hall i :=
  try (let H := fresh in
       pose proof (Hall i ltac:(lia)) as H; simpl in H; rewrite H; clear H;
       simpl).

(** C7: whatever the outcome of each configuration step,
    [eeprom_init] returns false at the first step that fails, having
    invoked the steps up to and including that one and none after it
    (nothing is undone); it returns true when all nine steps succeed,
    and only then. *)
Theorem eeprom_init_stops_at_first_failure {D : Defines}
    (ok : nat -> bool) (st : nat -> i2c_status_t) :
  (forall k,
      (k < 9)%nat ->
      (forall i, (i < k)%nat -> step_ok ok st i = true) ->
      step_ok ok st k = false ->
      exists b',
        eeprom_init (blank_board ok st) = Some (false, b') /\
        config_log b' = firstn (S k) init_steps) /\
  ((forall i, (i < 9)%nat -> step_ok ok st i = true) ->
   exists b',
     eeprom_init (blank_board ok st) = Some (true, b') /\
     config_log b' = init_steps) /\
  (forall b',
      eeprom_init (blank_board ok st) = Some (true, b') ->
      forall i, (i < 9)%nat -> step_ok ok st i = true).
Proof.
  unfold step_ok; split; [|split].
  - intros k Hk Hall Hfail.
    unfold eeprom_init, bind; simpl.
    do 9 (destruct k as [|k];
          [ use_step Hall 0%nat; use_step Hall 1%nat; use_step Hall 2%nat;
            use_step Hall 3%nat; use_step Hall 4%nat; use_step Hall 5%nat;
            use_step Hall 6%nat; use_step Hall 7%nat;
            simpl in Hfail; rewrite Hfail; simpl;
            eexists; split; reflexivity | ]).
    lia.
  - intros Hall.
    unfold eeprom_init, bind; simpl.
    use_step Hall 0%nat; use_step Hall 1%nat; use_step Hall 2%nat;
      use_step Hall 3%nat; use_step Hall 4%nat; use_step Hall 5%nat;
      use_step Hall 6%nat; use_step Hall 7%nat; use_step Hall 8%nat.
    eexists; split; reflexivity.
  - intros b'.
    unfold eeprom_init, bind; simpl.
    destruct (ok 0%nat) eqn:E0; simpl; [|discriminate].
    destruct (ok 1%nat) eqn:E1; simpl; [|discriminate].
    destruct (ok 2%nat) eqn:E2; simpl; [|discriminate].
    destruct (ok 3%nat) eqn:E3; simpl; [|discriminate].
    destruct (ok 4%nat) eqn:E4; simpl; [|discriminate].
    destruct (ok 5%nat) eqn:E5; simpl; [|discriminate].
    destruct (ok 6%nat) eqn:E6; simpl; [|discriminate].
    destruct (ok 7%nat) eqn:E7; simpl; [|discriminate].
    destruct (is_ok (st 8%nat)) eqn:E8; simpl; [|discriminate].
    intros _ i Hi.
    do 9 (destruct i as [|i]; [simpl; assumption|]).
    lia.
Qed.

(** C7 on a board whose open-drain selection, the sixth step, fails. *)
Lemma eeprom_init_stops_at_first_failure_witness :
  exists b',
    @eeprom_init tm4c123 board board_pins
      (blank_board (fun i => negb (Nat.eqb i 5)) (fun _ => I2C_OK))
    = Some (false, b') /\
    config_log b' = firstn 6 (@init_steps tm4c123).
Proof.
  apply (proj1 (@eeprom_init_stops_at_first_failure tm4c123
                  (fun i => negb (Nat.eqb i 5)) (fun _ => I2C_OK)) 5%nat).
  - lia.
  - intros i Hi.
    do 5 (destruct i as [|i]; [reflexivity|]). lia.
  - reflexivity.
Defined.


(** ** The controller with the EEPROM attached *)

Arguments has_flag : simpl never.

Lemma decoded_in_range address :
  0 <= address < 4096 -> decoded address = address.
Proof.
  intros H.
  assert (Hall : forallb (fun a => decoded a =? a)
                   (map Z.of_nat (seq 0 4096)) = true)
    by (vm_compute; reflexivity).
  rewrite forallb_forall in Hall.
  apply Z.eqb_eq, Hall, in_map_iff.
  exists (Z.to_nat address); split; [lia|].
  apply in_seq; lia.
Qed.

Section DeviceFacts.
Context {D : Defines}.
Hypothesis Hflags : flags_distinct.

Lemma flag_set_alone f : f <> 0 -> negb (f =? 0) = true.
Proof. intros H; apply Z.eqb_neq in H; now rewrite H. Qed.

Ltac flag_tac :=
  destruct Hflags as [Hs [Hr [Hp [Hsr [Hsp Hrp]]]]];
  unfold has_flag;
  rewrite ?Z.land_lor_distr_l, ?Z.land_diag,
    ?Hsr, ?Hsp, ?Hrp,
    ?(Z.land_comm I2C_MCS_RUN I2C_MCS_START),
    ?(Z.land_comm I2C_MCS_STOP I2C_MCS_START),
    ?(Z.land_comm I2C_MCS_STOP I2C_MCS_RUN),
    ?Hsr, ?Hsp, ?Hrp, ?Z.lor_0_r, ?Z.lor_0_l;
  solve [reflexivity | now apply flag_set_alone].

Lemma probe_flags :
  let mcs := Z.lor (Z.lor I2C_MCS_START I2C_MCS_RUN) I2C_MCS_STOP in
  has_flag mcs I2C_MCS_START = true /\
  has_flag mcs I2C_MCS_RUN = true /\
  has_flag mcs I2C_MCS_STOP = true.
Proof. repeat split; flag_tac. Qed.

Lemma start_run_flags :
  let mcs := Z.lor I2C_MCS_START I2C_MCS_RUN in
  has_flag mcs I2C_MCS_START = true /\
  has_flag mcs I2C_MCS_RUN = true /\
  has_flag mcs I2C_MCS_STOP = false.
Proof. repeat split; flag_tac. Qed.

Lemma run_flags :
  has_flag I2C_MCS_RUN I2C_MCS_START = false /\
  has_flag I2C_MCS_RUN I2C_MCS_RUN = true /\
  has_flag I2C_MCS_RUN I2C_MCS_STOP = false.
Proof. repeat split; flag_tac. Qed.

Lemma run_stop_flags :
  let mcs := Z.lor I2C_MCS_RUN I2C_MCS_STOP in
  has_flag mcs I2C_MCS_START = false /\
  has_flag mcs I2C_MCS_RUN = true /\
  has_flag mcs I2C_MCS_STOP = true.
Proof. repeat split; flag_tac. Qed.

End DeviceFacts.

#[local] Arguments Z.shiftl : simpl never.
#[local] Arguments Z.shiftr : simpl never.
#[local] Arguments Z.land : simpl never.
#[local] Arguments Z.lor : simpl never.
#[local] Arguments Z.add : simpl never.

Section DeviceRuns.
Context {D : Defines}.
Hypothesis Hflags : flags_distinct.

Lemma send_probe_device (d : eeprom_bus) :
  msa_rw d = I2C_WRITE ->
  dev_send_byte I2C1_BASE 0
    (Z.lor (Z.lor I2C_MCS_START I2C_MCS_RUN) I2C_MCS_STOP) d =
  match write_cycle d with
  | O =>
      if msa_dev d =? MCP24LC32AT_DEV_ID
      then Some (I2C_OK, idle (msa_dev d) d)
      else Some (I2C_NO_ACK,
                 {| t_wc := t_wc d; cells := cells d; pointer := pointer d;
                    received := []; selected := false; write_cycle := O;
                    msa_dev := msa_dev d; msa_rw := msa_rw d;
                    adrack := false |})
  | S remaining =>
      Some (I2C_NO_ACK,
            {| t_wc := t_wc d; cells := cells d; pointer := pointer d;
               received := []; selected := false; write_cycle := remaining;
               msa_dev := msa_dev d; msa_rw := msa_rw d; adrack := false |})
  end.
Proof.
  intros Hrw; unfold dev_send_byte.
  destruct (probe_flags Hflags) as [-> [-> ->]].
  rewrite Z.eqb_refl.
  destruct d as [twc mem ptr rcv sel wc dev rw ack]; simpl in Hrw; subst rw.
  unfold on_start, on_byte_out, on_stop, idle; simpl.
  destruct wc as [|w]; simpl; [|reflexivity].
  destruct (dev =? MCP24LC32AT_DEV_ID); reflexivity.
Qed.

Lemma poll_device fuel :
  forall w iters (d : eeprom_bus),
    write_cycle d = w -> (w < iters)%nat ->
    msa_dev d = MCP24LC32AT_DEV_ID -> msa_rw d = I2C_WRITE ->
    poll_until_ack (S fuel) iters I2C1_BASE d
    = Some (I2C_OK, idle MCP24LC32AT_DEV_ID d).
Proof.
  induction w as [|w IH]; intros iters d Hw Hi Hdev Hrw;
    (destruct iters as [|iters]; [lia|]).
  - simpl; unfold bind at 1.
    change (@i2cSendByte eeprom_bus eeprom_i2c) with dev_send_byte.
    rewrite (send_probe_device d Hrw), Hw, Hdev, Z.eqb_refl.
    reflexivity.
  - simpl; unfold bind at 1.
    change (@i2cSendByte eeprom_bus eeprom_i2c) with dev_send_byte.
    rewrite (send_probe_device d Hrw), Hw.
    unfold bind; simpl.
    rewrite IH; simpl; auto; lia.
Qed.

Lemma wait_device fuel (d : eeprom_bus) :
  (write_cycle d < fuel)%nat ->
  eeprom_wait_for_write fuel I2C1_BASE d
  = Some (I2C_OK, idle MCP24LC32AT_DEV_ID d).
Proof.
  intros Hw; destruct fuel as [|fuel]; [lia|].
  unfold eeprom_wait_for_write, bind.
  cbn [i2cVerifyBaseAddr i2cSetSlaveAddr eeprom_i2c].
  unfold dev_set_slave_addr; rewrite Z.eqb_refl; cbn [negb].
  rewrite (poll_device fuel (write_cycle d)); auto.
Qed.

Lemma wait_while_busy_device fuel base (d : eeprom_bus) :
  wait_while_busy (S fuel) base d = Some (tt, d).
Proof. reflexivity. Qed.

Lemma byte_write_device fuel (d : eeprom_bus) address data :
  (write_cycle d < fuel)%nat ->
  eeprom_byte_write fuel I2C1_BASE address data d
  = Some (I2C_OK, written MCP24LC32AT_DEV_ID d (decoded address) data).
Proof.
  intros Hw; destruct fuel as [|fuel]; [lia|].
  unfold eeprom_byte_write.
  unfold bind at 1; rewrite wait_while_busy_device.
  unfold bind at 1; cbn [i2cSetSlaveAddr eeprom_i2c].
  unfold dev_set_slave_addr at 1; rewrite Z.eqb_refl; cbn [negb is_ok].
  unfold bind at 1; rewrite wait_device by exact Hw.
  unfold bind; cbn [i2cSendByte eeprom_i2c].
  unfold dev_send_byte.
  destruct (start_run_flags Hflags) as [-> [-> ->]].
  destruct (run_flags Hflags) as [-> [-> ->]].
  destruct (run_stop_flags Hflags) as [-> [-> ->]].
  rewrite Z.eqb_refl; cbn [negb].
  destruct d as [twc mem ptr rcv sel wc dev rw ack].
  unfold on_start, on_byte_out, on_stop, idle, written, decoded, ret; simpl.
  rewrite Z.eqb_refl; simpl.
  reflexivity.
Qed.

Lemma byte_read_device fuel (d : eeprom_bus) address data :
  (write_cycle d < fuel)%nat ->
  eeprom_byte_read fuel I2C1_BASE address data d
  = Some ((I2C_OK, cells d (decoded address)),
          fetched MCP24LC32AT_DEV_ID d (decoded address)).
Proof.
  intros Hw; destruct fuel as [|fuel]; [lia|].
  unfold eeprom_byte_read.
  unfold bind at 1; rewrite wait_while_busy_device.
  unfold bind at 1; rewrite wait_device by exact Hw.
  unfold bind; cbn [i2cSetSlaveAddr i2cSendByte i2cGetByte eeprom_i2c].
  unfold dev_set_slave_addr, dev_send_byte, dev_get_byte.
  destruct (start_run_flags Hflags) as [-> [-> ->]].
  destruct (run_flags Hflags) as [-> [-> ->]].
  destruct (probe_flags Hflags) as [-> [-> ->]].
  rewrite Z.eqb_refl; cbn [negb].
  destruct d as [twc mem ptr rcv sel wc dev rw ack].
  unfold on_start, on_byte_out, on_byte_in, on_stop, idle, fetched, decoded,
    ret; simpl.
  rewrite Z.eqb_refl; simpl.
  reflexivity.
Qed.

(** C1: on the controller with the EEPROM attached, whatever the
    length of the write cycle and the state the device is found in
    (the iteration budget of the poll loops exceeding both), for every
    address in [0, 4095] and every byte value in [0, 255] a byte write
    followed by a byte read at the same address both return ok and the
    read delivers the byte that was written. *)
Theorem byte_write_then_read (fuel : nat) (d : eeprom_bus)
    (address data read_val : Z) :
  0 <= address <= 4095 -> 0 <= data <= 255 ->
  (write_cycle d < fuel)%nat -> (t_wc d < fuel)%nat ->
  exists d1 d2,
    eeprom_byte_write fuel I2C1_BASE address data d = Some (I2C_OK, d1) /\
    eeprom_byte_read fuel I2C1_BASE address read_val d1
    = Some ((I2C_OK, data), d2).
Proof.
  intros Ha Hd Hw Ht.
  rewrite byte_write_device by exact Hw.
  eexists; eexists; split; [reflexivity|].
  rewrite byte_read_device by exact Ht.
  rewrite decoded_in_range by lia.
  simpl; unfold store; rewrite Z.eqb_refl; reflexivity.
Qed.

Lemma uint16_small x : 0 <= x <= 4096 -> uint16 x = x.
Proof.
  intros H; unfold uint16; change (2 ^ 16) with 65536.
  apply Z.mod_small; lia.
Qed.

Lemma char_code_round_trip (c : ascii) :
  ascii_of_N (Z.to_N (uint8 (uint8 (Z.of_N (N_of_ascii c))))) = c.
Proof.
  pose proof (N_ascii_bounded c) as Hb.
  unfold uint8; change (2 ^ 8) with 256.
  rewrite !(Z.mod_small (Z.of_N (N_of_ascii c)) 256) by lia.
  now rewrite N2Z.id, ascii_N_embedding.
Qed.

Lemma blit_below s :
  forall a mem x, x < a -> blit s a mem x = mem x.
Proof.
  induction s as [|c rest IH]; intros a mem x Hx; simpl; [reflexivity|].
  destruct (is_nul c); [reflexivity|].
  rewrite IH by lia.
  unfold store; destruct (x =? a) eqn:E; [apply Z.eqb_eq in E; lia|reflexivity].
Qed.

Lemma text_blit s :
  forall a mem, text (strlen s) a (blit s a mem) = c_str s.
Proof.
  induction s as [|c rest IH]; intros a mem; simpl; [reflexivity|].
  destruct (is_nul c); [reflexivity|].
  simpl; rewrite IH, blit_below by lia.
  unfold store at 1; rewrite Z.eqb_refl.
  now rewrite char_code_round_trip.
Qed.

Lemma write_to_eeprom_device fuel s :
  forall a (d : eeprom_bus),
    0 <= a -> a + Z.of_nat (strlen s) <= 4096 ->
    (write_cycle d < fuel)%nat -> (t_wc d < fuel)%nat ->
    exists d1,
      write_to_eeprom fuel s a d = Some (tt, d1) /\
      cells d1 = blit s a (cells d) /\
      t_wc d1 = t_wc d /\ (write_cycle d1 < fuel)%nat.
Proof.
  induction s as [|c rest IH]; intros a d Ha Hlen Hw Ht; simpl.
  - exists d; auto.
  - simpl in Hlen; destruct (is_nul c); [exists d; auto|].
    unfold bind; rewrite byte_write_device by exact Hw.
    rewrite decoded_in_range, uint16_small by lia.
    destruct (IH (a + 1)
                (written MCP24LC32AT_DEV_ID d a
                   (uint8 (Z.of_N (N_of_ascii c)))))
      as [d1 [E [Hc [Ht1 Hw1]]]]; simpl; try lia.
    exists d1; auto.
Qed.

Lemma read_back_device fuel count :
  forall a read_val (d : eeprom_bus),
    0 <= a -> a + Z.of_nat count <= 4096 ->
    (write_cycle d < fuel)%nat ->
    exists d2,
      read_back fuel count a read_val d
      = Some (text count a (cells d), d2).
Proof.
  induction count as [|count IH]; intros a read_val d Ha Hlen Hw; simpl.
  - exists d; reflexivity.
  - unfold bind, read_from_eprom, bind.
    rewrite byte_read_device by exact Hw.
    rewrite uint16_small, decoded_in_range by lia.
    destruct (IH (a + 1) (cells d a) (fetched MCP24LC32AT_DEV_ID d a))
      as [d2 E]; simpl; try lia.
    simpl in E; unfold ret; rewrite E.
    exists d2; reflexivity.
Qed.

Lemma c_str_without_nul s :
  String.length s = strlen s -> c_str s = s.
Proof.
  induction s as [|c rest IH]; simpl; [reflexivity|].
  destruct (is_nul c); [discriminate|].
  intros E; f_equal; apply IH; congruence.
Qed.

(** C8: on the controller with the EEPROM attached, for every string
    and starting offset that keep the text within the 4096-byte address
    space, [write_to_eeprom] returns, and reading back one byte at a
    time from the same offset, as the loops of [eeprom_init_write_read]
    do, prints the characters of the string up to its terminator: the
    string itself when it holds no NUL character. *)
Theorem string_write_then_read_back (fuel : nat) (d : eeprom_bus)
    (s : string) (a read_val : Z) :
  0 <= a -> a + Z.of_nat (strlen s) <= 4096 ->
  (write_cycle d < fuel)%nat -> (t_wc d < fuel)%nat ->
  exists d1 d2,
    write_to_eeprom fuel s a d = Some (tt, d1) /\
    read_back fuel (strlen s) a read_val d1 = Some (c_str s, d2) /\
    (String.length s = strlen s -> c_str s = s).
Proof.
  intros Ha Hlen Hw Ht.
  destruct (write_to_eeprom_device fuel s a d Ha Hlen Hw Ht)
    as [d1 [E [Hc [_ Hw1]]]].
  destruct (read_back_device fuel (strlen s) a read_val d1 Ha Hlen Hw1)
    as [d2 E2].
  exists d1, d2; split; [exact E|]; split; [|apply c_str_without_nul].
  now rewrite E2, Hc, text_blit.
Qed.
End DeviceRuns.

Lemma tm4c123_flags_distinct : @flags_distinct tm4c123.
Proof. repeat split; discriminate. Qed.

(** C1 at address 490 on a device caught two polls before the end of a
    write cycle that lasts three. *)
Lemma byte_write_then_read_witness :
  @flags_distinct tm4c123 /\
  exists d1 d2,
    @eeprom_byte_write tm4c123 eeprom_bus (@eeprom_i2c tm4c123) 4
      0x40021000 490 0x54 (eeprom_with 3 (fun _ => 0xFF) 2)
    = Some (I2C_OK, d1) /\
    @eeprom_byte_read tm4c123 eeprom_bus (@eeprom_i2c tm4c123) 4
      0x40021000 490 0 d1
    = Some ((I2C_OK, 0x54), d2).
Proof.
  split; [exact tm4c123_flags_distinct|].
  apply (@byte_write_then_read tm4c123 tm4c123_flags_distinct 4
           (eeprom_with 3 (fun _ => 0xFF) 2) 490 0x54 0);
    simpl; lia.
Defined.

(** C8 on the text the demonstration stores at offset 490, line feed
    included. *)
Lemma string_write_then_read_back_witness :
  exists d1 d2,
    @write_to_eeprom tm4c123 eeprom_bus (@eeprom_i2c tm4c123) 4
      "Team number: 13
" 490 (eeprom_with 3 (fun _ => 0xFF) 0)
    = Some (tt, d1) /\
    @read_back tm4c123 eeprom_bus (@eeprom_i2c tm4c123) 4 16 490 0 d1
    = Some ("Team number: 13
"%string, d2).
Proof.
  destruct (@string_write_then_read_back tm4c123 tm4c123_flags_distinct 4
              (eeprom_with 3 (fun _ => 0xFF) 0) "Team number: 13
" 490 0) as [d1 [d2 [E1 [E2 _]]]]; [simpl; lia ..|].
  exists d1, d2; split; [exact E1|exact E2].
Defined.

(** * Further properties of the driver *)

(** ** The address bytes *)

Lemma address_split address :
  0 <= address < 65536 ->
  0 <= uint8 (Z.shiftr address 8) <= 255 /\
  0 <= uint8 address <= 255 /\
  uint8 (Z.shiftr address 8) * 256 + uint8 address = address.
Proof.
  intros H; unfold uint8; rewrite Z.shiftr_div_pow2 by lia.
  change (2 ^ 8) with 256.
  assert (Hq : 0 <= address / 256 < 256).
  { split; [apply Z.div_pos; lia|apply Z.div_lt_upper_bound; lia]. }
  rewrite (Z.mod_small (address / 256)) by exact Hq.
  pose proof (Z.mod_pos_bound address 256 ltac:(lia)) as Hr.
  pose proof (Z.div_mod address 256 ltac:(lia)) as Hd.
  lia.
Qed.

(** X1: The two address bytes a successful byte write or byte read sends
    are the high and low byte of the 16-bit address: each fits a byte
    and together they give the address back.  They are the calls just
    before the data byte, respectively just before the switch to read
    mode. *)
Theorem address_bytes_encode_the_address {D : Defines}
    fuel base address data (m : mock) :
  0 <= address < 65536 ->
  (forall m',
      eeprom_byte_write fuel base address data m = Some (I2C_OK, m') ->
      exists pre hi lo,
        calls m' =
          pre ++ [SendByte base hi (Z.lor I2C_MCS_START I2C_MCS_RUN);
                  SendByte base lo I2C_MCS_RUN;
                  SendByte base data (Z.lor I2C_MCS_RUN I2C_MCS_STOP)] /\
        0 <= hi <= 255 /\ 0 <= lo <= 255 /\ hi * 256 + lo = address) /\
  (forall v m',
      eeprom_byte_read fuel base address data m = Some ((I2C_OK, v), m') ->
      exists pre hi lo,
        calls m' =
          pre ++ [SendByte base hi (Z.lor I2C_MCS_START I2C_MCS_RUN);
                  SendByte base lo I2C_MCS_RUN;
                  SetSlaveAddr base MCP24LC32AT_DEV_ID I2C_READ;
                  GetByte base
                    (Z.lor (Z.lor I2C_MCS_START I2C_MCS_RUN) I2C_MCS_STOP)] /\
        0 <= hi <= 255 /\ 0 <= lo <= 255 /\ hi * 256 + lo = address).
Proof.
  intros Ha; destruct (address_split address Ha) as [Hhi [Hlo Hsum]].
  split.
  - intros m' E; apply byte_write_shape in E.
    destruct E as [bp [_ [[Hne [Hst _]]|[_ [stw [m2 [evs [_ [Hl [_ Hsc]]]]]]]]]].
    + symmetry in Hst; contradiction.
    + destruct Hsc as [_ [_ [_ [_ [_ Hfull]]]]].
      exists (calls m2), (uint8 (Z.shiftr address 8)), (uint8 address).
      unfold calls at 1; rewrite Hl, map_app, (Hfull eq_refl).
      repeat split; auto; lia.
  - intros v m' E; apply byte_read_shape in E.
    destruct E as [bp [stw [m2 [evs [_ [_ [Hl [_ [Hsc _]]]]]]]]].
    destruct Hsc as [_ [_ [_ [_ [_ Hfull]]]]].
    exists (calls m2 ++ [SetSlaveAddr base MCP24LC32AT_DEV_ID I2C_WRITE]),
      (uint8 (Z.shiftr address 8)), (uint8 address).
    unfold calls at 1; rewrite Hl, map_app, (Hfull eq_refl), <- app_assoc.
    repeat split; auto; lia.
Qed.

(** The address bytes of a write at address 490. *)
Lemma address_bytes_encode_the_address_witness :
  0 <= 490 < 65536 /\
  exists m' pre hi lo,
    @eeprom_byte_write tm4c123 mock mock_bus 1 0x40021000 490 0x54
      (fresh (ready_after 0)) = Some (I2C_OK, m') /\
    calls m' = pre ++ [SendByte 0x40021000 hi 3; SendByte 0x40021000 lo 1;
                       SendByte 0x40021000 0x54 5] /\
    hi * 256 + lo = 490.
Proof.
  split; [lia|].
  assert (E : exists m',
             @eeprom_byte_write tm4c123 mock mock_bus 1 0x40021000 490 0x54
               (fresh (ready_after 0)) = Some (I2C_OK, m'))
    by (eexists; vm_compute; reflexivity).
  destruct E as [m' E].
  destruct (proj1 (@address_bytes_encode_the_address tm4c123 1 0x40021000
                     490 0x54 (fresh (ready_after 0)) ltac:(lia)) m' E)
    as [pre [hi [lo [Hc [_ [_ Hsum]]]]]].
  exists m', pre, hi, lo; split; [exact E|]; split; [exact Hc|exact Hsum].
Defined.

(** ** Failures the string write does not see *)

(** X2: [write_to_eeprom] drops the status of every byte write.  On a bus
    that gives every call a status other than ok it still returns,
    having tried each character in turn: the call log grows by one
    address-set per character and by nothing else, no byte is sent,
    and the caller is told nothing. *)
Theorem write_to_eeprom_ignores_failures {D : Defines} fuel s :
  forall a (m : mock),
    (forall i, status_at (env m) i <> I2C_OK) ->
    settles_within (busy_at (env m)) fuel ->
    exists m',
      write_to_eeprom fuel s a m = Some (tt, m') /\
      env m' = env m /\
      calls m' =
        calls m ++ repeat (SetSlaveAddr I2C1_BASE MCP24LC32AT_DEV_ID I2C_WRITE)
                     (strlen s).
Proof.
  induction s as [|c rest IH]; intros a m Hbad Hs; simpl.
  - exists m; rewrite app_nil_r; auto.
  - destruct (is_nul c); [exists m; rewrite app_nil_r; auto|].
    unfold bind at 1; rewrite byte_write_mock.
    destruct (Hs (busy_polls m)) as [j [Hj Hb]].
    destruct (idle_after_clears _ fuel _ j Hj Hb) as [bp ->]; simpl.
    assert (Hok : is_ok (status_at (env m) (n_calls m)) = false).
    { specialize (Hbad (n_calls m)).
      destruct (status_at (env m) (n_calls m)); simpl; congruence. }
    rewrite Hok.
    destruct (IH (uint16 (a + 1))
                (called (polled m bp)
                   (SetSlaveAddr I2C1_BASE MCP24LC32AT_DEV_ID I2C_WRITE)))
      as [m' [E [He Hc]]]; [exact Hbad|exact Hs|].
    exists m'; split; [exact E|]; split; [exact He|].
    rewrite Hc, calls_called, calls_polled, <- app_assoc; reflexivity.
Qed.

(** The text of the demonstration on a bus that refuses every call. *)
Lemma write_to_eeprom_ignores_failures_witness :
  exists m',
    @write_to_eeprom tm4c123 mock mock_bus 1 teamNum 490
      (fresh refused_throughout) = Some (tt, m') /\
    calls m' = repeat (SetSlaveAddr 0x40021000 0x50 I2C_WRITE) 16.
Proof.
  destruct (@write_to_eeprom_ignores_failures tm4c123 1 teamNum 490
              (fresh refused_throughout))
    as [m' [E [_ Hc]]].
  - intros i; simpl; discriminate.
  - intros bp; exists O; split; [lia|reflexivity].
  - exists m'; split; [exact E|exact Hc].
Defined.

(** ** The destination of a failed read *)

Lemma issue_more (m : mock) c c' rest :
  issue m c (c' :: rest) =
  if is_ok (status_at (env m) (n_calls m))
  then issue (called m c) c' rest
  else (status_at (env m) (n_calls m), called m c).
Proof. reflexivity. Qed.

Lemma issue_last (m : mock) c :
  issue m c [] = (status_at (env m) (n_calls m), called m c).
Proof. reflexivity. Qed.

Lemma cell_after_more sc c count data :
  cell_after sc c (S (S count)) data =
  if is_ok (status_at sc c) then cell_after sc (S c) (S count) data else data.
Proof. reflexivity. Qed.

Lemma cell_after_last sc c data :
  cell_after sc c 1 data = byte_at sc c data.
Proof. reflexivity. Qed.

Lemma read_reaches_get_or_keeps {D : Defines} base address data (m2 : mock) :
  let get :=
    GetByte base (Z.lor (Z.lor I2C_MCS_START I2C_MCS_RUN) I2C_MCS_STOP) in
  (cell_after (env m2) (n_calls m2) 5 data = data /\
   fst (issue m2 (SetSlaveAddr base MCP24LC32AT_DEV_ID I2C_WRITE)
          (tl (read_sequence base address))) <> I2C_OK) \/
  (cell_after (env m2) (n_calls m2) 5 data
   = byte_at (env m2) (n_calls m2 + 4) data /\
   exists pre,
     calls (snd (issue m2 (SetSlaveAddr base MCP24LC32AT_DEV_ID I2C_WRITE)
                   (tl (read_sequence base address))))
     = pre ++ [get]).
Proof.
  simpl.
  rewrite !issue_more, !cell_after_more, issue_last, cell_after_last; simpl.
  destruct (is_ok (status_at (env m2) (n_calls m2))) eqn:E0;
    [|left; split; [reflexivity|now apply is_ok_false]].
  destruct (is_ok (status_at (env m2) (S (n_calls m2)))) eqn:E1;
    [|left; split; [reflexivity|now apply is_ok_false]].
  destruct (is_ok (status_at (env m2) (S (S (n_calls m2))))) eqn:E2;
    [|left; split; [reflexivity|now apply is_ok_false]].
  destruct (is_ok (status_at (env m2) (S (S (S (n_calls m2)))))) eqn:E3;
    [|left; split; [reflexivity|now apply is_ok_false]].
  right; simpl.
  replace (n_calls m2 + 4)%nat with (S (S (S (S (n_calls m2))))) by lia.
  split; [reflexivity|].
  unfold calls; simpl; rewrite !map_app; simpl.
  eexists; reflexivity.
Qed.

(** X3: [eeprom_byte_read] writes the destination only through the get: a
    read whose last call is not the get-byte, because an earlier call
    of its own failed, hands back the content the destination had
    before and a status other than ok. *)
Theorem byte_read_keeps_destination_on_failure {D : Defines}
    fuel base address data (m : mock) st v m' :
  eeprom_byte_read fuel base address data m = Some ((st, v), m') ->
  (forall pre,
      calls m' <>
      pre ++ [GetByte base
                (Z.lor (Z.lor I2C_MCS_START I2C_MCS_RUN) I2C_MCS_STOP)]) ->
  v = data /\ st <> I2C_OK.
Proof.
  rewrite byte_read_mock.
  destruct (idle_after _ fuel _) as [bp|]; [|discriminate].
  destruct (eeprom_wait_for_write fuel base _) as [[stw m2]|]; [|discriminate].
  cbn [read_sequence].
  destruct (read_reaches_get_or_keeps base address data m2)
    as [[Hk Hst]|[_ [pre Hp]]];
    cbn [read_sequence tl] in *;
    destruct (issue m2 _ _) as [st3 m3];
    intros E; inversion E; subst; clear E; intros Hno.
  - split; [exact Hk|exact Hst].
  - exfalso; exact (Hno pre Hp).
Qed.

(** A read whose first address-set is refused. *)
Lemma byte_read_keeps_destination_on_failure_witness :
  exists m',
    @eeprom_byte_read tm4c123 mock mock_bus 1 0x40021000 490 0x2A
      (fresh refused_throughout) = Some ((I2C_INVALID_BASE, 0x2A), m') /\
    0x2A = 0x2A /\ I2C_INVALID_BASE <> I2C_OK.
Proof.
  assert (E : exists m',
             @eeprom_byte_read tm4c123 mock mock_bus 1 0x40021000 490 0x2A
               (fresh refused_throughout)
             = Some ((I2C_INVALID_BASE, 0x2A), m'))
    by (eexists; vm_compute; reflexivity).
  destruct E as [m' E]; exists m'; split; [exact E|].
  apply (@byte_read_keeps_destination_on_failure tm4c123 1 0x40021000 490
           0x2A (fresh refused_throughout) I2C_INVALID_BASE 0x2A m' E).
  intros pre Hc.
  assert (Hm : calls m' = [SetSlaveAddr 0x40021000 0x50 I2C_WRITE])
    by (vm_compute in E; inversion E; reflexivity).
  rewrite Hm in Hc.
  destruct pre as [|c [|c' pre]]; simpl in Hc; discriminate.
Defined.

Lemma byte_read_refused {D : Defines} fuel base address data (m : mock) :
  (forall i, status_at (env m) i <> I2C_OK) ->
  settles_within (busy_at (env m)) fuel ->
  (forall i, ack_at (env m) i = true) ->
  exists st m',
    eeprom_byte_read fuel base address data m = Some ((st, data), m') /\
    st <> I2C_OK /\ env m' = env m.
Proof.
  intros Hbad Hs Hack; rewrite byte_read_mock.
  destruct (Hs (busy_polls m)) as [j [Hj Hb]].
  destruct (idle_after_clears _ fuel _ j Hj Hb) as [bp ->].
  rewrite eeprom_wait_for_write_mock.
  cbn [env polled busy_polls ack_polls n_calls read_sequence].
  assert (Hbad' : forall m0 : mock,
             env m0 = env m ->
             is_ok (status_at (env m0) (n_calls m0)) = false).
  { intros m0 ->; specialize (Hbad (n_calls m0)).
    destruct (status_at (env m) (n_calls m0)); simpl; congruence. }
  destruct (valid_base (env m) base).
  - destruct (acked_after_total _ (ack_at (env m)) fuel fuel Hs O bp
                (ack_polls m)) as [bp' ->].
    + split; [rewrite Nat.add_0_r; apply Hack|intros i Hi; lia].
    + lia.
    + rewrite issue_more, cell_after_more, Hbad' by reflexivity.
      eexists; eexists; split; [reflexivity|].
      split; [apply Hbad|reflexivity].
  - rewrite issue_more, cell_after_more, Hbad' by reflexivity.
    eexists; eexists; split; [reflexivity|].
    split; [apply Hbad|reflexivity].
Qed.

(** X4: [read_from_eprom] drops the status of the read, so the read-back
    loop cannot tell a failed read from a good one.  On a bus that
    gives every call a status other than ok, whose busy flag settles
    and whose device acknowledges every probe, the loop still returns,
    and what it prints is the character [read_val] held on entry, once
    per iteration. *)
Theorem read_back_repeats_stale_byte {D : Defines} fuel count :
  forall i read_val (m : mock),
    (forall k, status_at (env m) k <> I2C_OK) ->
    settles_within (busy_at (env m)) fuel ->
    (forall k, ack_at (env m) k = true) ->
    exists m',
      read_back fuel count i read_val m
      = Some (string_of_list_ascii
                (repeat (ascii_of_N (Z.to_N (uint8 read_val))) count), m') /\
      env m' = env m.
Proof.
  induction count as [|count IH]; intros i read_val m Hbad Hs Hack; simpl.
  - exists m; auto.
  - unfold bind at 1, read_from_eprom, bind at 1.
    destruct (byte_read_refused fuel I2C1_BASE (uint16 i) read_val m
                Hbad Hs Hack) as [st [m1 [-> [_ He]]]].
    unfold ret at 1, bind at 1.
    destruct (IH (i + 1) read_val m1) as [m' [-> He']];
      try (rewrite He; assumption).
    exists m'; split; [reflexivity|congruence].
Qed.

(** Three iterations on a bus that refuses every call, [read_val]
    holding the code of an asterisk. *)
Lemma read_back_repeats_stale_byte_witness :
  exists m',
    @read_back tm4c123 mock mock_bus 1 3 490 0x2A (fresh refused_throughout)
    = Some ("***"%string, m').
Proof.
  destruct (@read_back_repeats_stale_byte tm4c123 1 3 490 0x2A
              (fresh refused_throughout)) as [m' [E _]].
  - intros k; simpl; discriminate.
  - intros bp; exists O; split; [lia|reflexivity].
  - intros k; reflexivity.
  - exists m'; exact E.
Defined.

(** ** The memory behind the driver *)

Lemma lor_shiftl_low_byte hi lo :
  0 <= hi -> 0 <= lo < 256 -> Z.lor (Z.shiftl hi 8) lo = hi * 256 + lo.
Proof.
  intros Hhi Hlo.
  rewrite Z.shiftl_mul_pow2 by lia; change (2 ^ 8) with 256.
  assert (Hdisjoint : Z.land (hi * 256) lo = 0).
  { apply Z.bits_inj'; intros n Hn.
    rewrite Z.land_spec, Z.bits_0.
    destruct (Z.lt_ge_cases n 8) as [Hlow|Hhigh].
    - change 256 with (2 ^ 8).
      now rewrite Z.mul_pow2_bits_low.
    - destruct (Z.eq_dec lo 0) as [->|Hnz];
        [now rewrite Z.bits_0, andb_false_r|].
      rewrite (Z.bits_above_log2 lo n), andb_false_r; [reflexivity|lia|].
      apply Z.lt_le_trans with 8; [|exact Hhigh].
      apply Z.log2_lt_pow2; [lia|]. change (2 ^ 8) with 256; lia. }
  now rewrite <- (Z.lxor_lor _ _ Hdisjoint), <- (Z.add_nocarry_lxor _ _ Hdisjoint).
Qed.

Lemma decoded_low_12_bits address :
  0 <= address < 65536 -> decoded address = address mod 4096.
Proof.
  intros H; unfold decoded.
  destruct (address_split address H) as [Hhi [Hlo Hsum]].
  rewrite lor_shiftl_low_byte, Hsum by lia.
  change 4095 with (Z.ones 12).
  now rewrite Z.land_ones by lia.
Qed.

Section DeviceMemory.
Context {D : Defines}.
Hypothesis Hflags : flags_distinct.

(** X5: Only the low 12 bits of the address reach the device: a byte
    written at one 16-bit address is read back at every 16-bit address
    that differs from it by a multiple of 4096. *)
Theorem addresses_alias_modulo_4096 (fuel : nat) (d : eeprom_bus)
    (a a' data read_val : Z) :
  0 <= a < 65536 -> 0 <= a' < 65536 -> a mod 4096 = a' mod 4096 ->
  (write_cycle d < fuel)%nat -> (t_wc d < fuel)%nat ->
  exists d1 d2,
    eeprom_byte_write fuel I2C1_BASE a data d = Some (I2C_OK, d1) /\
    eeprom_byte_read fuel I2C1_BASE a' read_val d1
    = Some ((I2C_OK, data), d2).
Proof.
  intros Ha Ha' Hmod Hw Ht.
  rewrite (byte_write_device Hflags) by exact Hw.
  eexists; eexists; split; [reflexivity|].
  rewrite (byte_read_device Hflags) by exact Ht.
  rewrite !decoded_low_12_bits, Hmod by lia.
  simpl; unfold store; rewrite Z.eqb_refl; reflexivity.
Qed.

(** X6: A byte write leaves every other cell as it was: a read at [b]
    returns the same byte before and after a write at an address that
    names another cell. *)
Theorem byte_write_leaves_other_cells (fuel : nat) (d : eeprom_bus)
    (a b data read_val read_val' : Z) :
  0 <= a < 65536 -> 0 <= b < 65536 -> a mod 4096 <> b mod 4096 ->
  (write_cycle d < fuel)%nat -> (t_wc d < fuel)%nat ->
  exists x d0 d1 d2,
    eeprom_byte_read fuel I2C1_BASE b read_val d = Some ((I2C_OK, x), d0) /\
    eeprom_byte_write fuel I2C1_BASE a data d0 = Some (I2C_OK, d1) /\
    eeprom_byte_read fuel I2C1_BASE b read_val' d1
    = Some ((I2C_OK, x), d2).
Proof.
  intros Ha Hb Hne Hw Ht.
  rewrite (byte_read_device Hflags) by exact Hw.
  eexists; eexists; eexists; eexists; split; [reflexivity|].
  rewrite (byte_write_device Hflags) by (simpl; lia).
  split; [reflexivity|].
  rewrite (byte_read_device Hflags) by (simpl; exact Ht).
  rewrite !decoded_low_12_bits by lia.
  simpl; unfold store.
  destruct (b mod 4096 =? a mod 4096) eqn:E;
    [apply Z.eqb_eq in E; congruence|reflexivity].
Qed.

(** X7: Of two byte writes to the same cell the later one is what a read
    returns. *)
Theorem last_byte_write_wins (fuel : nat) (d : eeprom_bus)
    (a data1 data2 read_val : Z) :
  0 <= a < 65536 ->
  (write_cycle d < fuel)%nat -> (t_wc d < fuel)%nat ->
  exists d1 d2 d3,
    eeprom_byte_write fuel I2C1_BASE a data1 d = Some (I2C_OK, d1) /\
    eeprom_byte_write fuel I2C1_BASE a data2 d1 = Some (I2C_OK, d2) /\
    eeprom_byte_read fuel I2C1_BASE a read_val d2
    = Some ((I2C_OK, data2), d3).
Proof.
  intros Ha Hw Ht.
  rewrite (byte_write_device Hflags) by exact Hw.
  eexists; eexists; eexists; split; [reflexivity|].
  rewrite (byte_write_device Hflags) by (simpl; exact Ht).
  split; [reflexivity|].
  rewrite (byte_read_device Hflags) by (simpl; exact Ht).
  simpl; unfold store; rewrite Z.eqb_refl; reflexivity.
Qed.

(** X8: A byte read does not change the memory, although it addresses the
    device in write mode first: two reads in a row at the same address
    return the same byte. *)
Theorem byte_read_is_repeatable (fuel : nat) (d : eeprom_bus)
    (a read_val read_val' : Z) :
  (write_cycle d < fuel)%nat ->
  exists x d1 d2,
    eeprom_byte_read fuel I2C1_BASE a read_val d = Some ((I2C_OK, x), d1) /\
    eeprom_byte_read fuel I2C1_BASE a read_val' d1 = Some ((I2C_OK, x), d2) /\
    cells d1 = cells d.
Proof.
  intros Hw.
  rewrite (byte_read_device Hflags) by exact Hw.
  eexists; eexists; eexists; split; [reflexivity|].
  rewrite (byte_read_device Hflags) by (simpl; lia).
  split; reflexivity.
Qed.

End DeviceMemory.

(** Address 490 and address 490 + 4096 name the same cell. *)
Lemma addresses_alias_modulo_4096_witness :
  exists d1 d2,
    @eeprom_byte_write tm4c123 eeprom_bus (@eeprom_i2c tm4c123) 4
      0x40021000 490 0x54 (eeprom_with 3 (fun _ => 0xFF) 2)
    = Some (I2C_OK, d1) /\
    @eeprom_byte_read tm4c123 eeprom_bus (@eeprom_i2c tm4c123) 4
      0x40021000 4586 0 d1
    = Some ((I2C_OK, 0x54), d2).
Proof.
  apply (@addresses_alias_modulo_4096 tm4c123 tm4c123_flags_distinct 4
           (eeprom_with 3 (fun _ => 0xFF) 2) 490 4586 0x54 0);
    try (simpl; lia).
  reflexivity.
Defined.

(** A write at 490 seen from 491. *)
Lemma byte_write_leaves_other_cells_witness :
  exists x d0 d1 d2,
    @eeprom_byte_read tm4c123 eeprom_bus (@eeprom_i2c tm4c123) 4
      0x40021000 491 0 (eeprom_with 3 (fun _ => 0xFF) 2)
    = Some ((I2C_OK, x), d0) /\
    @eeprom_byte_write tm4c123 eeprom_bus (@eeprom_i2c tm4c123) 4
      0x40021000 490 0x54 d0 = Some (I2C_OK, d1) /\
    @eeprom_byte_read tm4c123 eeprom_bus (@eeprom_i2c tm4c123) 4
      0x40021000 491 0 d1
    = Some ((I2C_OK, x), d2).
Proof.
  apply (@byte_write_leaves_other_cells tm4c123 tm4c123_flags_distinct 4
           (eeprom_with 3 (fun _ => 0xFF) 2) 490 491 0x54 0 0);
    try (simpl; lia).
  vm_compute; discriminate.
Defined.

(** Two writes at 490. *)
Lemma last_byte_write_wins_witness :
  exists d1 d2 d3,
    @eeprom_byte_write tm4c123 eeprom_bus (@eeprom_i2c tm4c123) 4
      0x40021000 490 0x54 (eeprom_with 3 (fun _ => 0xFF) 2)
    = Some (I2C_OK, d1) /\
    @eeprom_byte_write tm4c123 eeprom_bus (@eeprom_i2c tm4c123) 4
      0x40021000 490 0x55 d1 = Some (I2C_OK, d2) /\
    @eeprom_byte_read tm4c123 eeprom_bus (@eeprom_i2c tm4c123) 4
      0x40021000 490 0 d2
    = Some ((I2C_OK, 0x55), d3).
Proof.
  apply (@last_byte_write_wins tm4c123 tm4c123_flags_distinct 4
           (eeprom_with 3 (fun _ => 0xFF) 2) 490 0x54 0x55 0);
    simpl; lia.
Defined.

(** Two reads at 490. *)
Lemma byte_read_is_repeatable_witness :
  exists x d1 d2,
    @eeprom_byte_read tm4c123 eeprom_bus (@eeprom_i2c tm4c123) 4
      0x40021000 490 0 (eeprom_with 3 (fun _ => 0xFF) 2)
    = Some ((I2C_OK, x), d1) /\
    @eeprom_byte_read tm4c123 eeprom_bus (@eeprom_i2c tm4c123) 4
      0x40021000 490 0 d1
    = Some ((I2C_OK, x), d2).
Proof.
  destruct (@byte_read_is_repeatable tm4c123 tm4c123_flags_distinct 4
              (eeprom_with 3 (fun _ => 0xFF) 2) 490 0 0)
    as [x [d1 [d2 [E1 [E2 _]]]]]; [simpl; lia|].
  exists x, d1, d2; split; [exact E1|exact E2].
Defined.

(** ** Texts in the memory *)

Lemma blit_outside s :
  forall a mem x,
    x < a \/ a + Z.of_nat (strlen s) <= x -> blit s a mem x = mem x.
Proof.
  induction s as [|c rest IH]; intros a mem x Hx; simpl; [reflexivity|].
  simpl in Hx; destruct (is_nul c); [reflexivity|].
  rewrite IH by lia.
  unfold store; destruct (x =? a) eqn:E; [apply Z.eqb_eq in E; lia|reflexivity].
Qed.

Lemma text_agrees count :
  forall a mem1 mem2,
    (forall x, a <= x < a + Z.of_nat count -> mem1 x = mem2 x) ->
    text count a mem1 = text count a mem2.
Proof.
  induction count as [|count IH]; intros a mem1 mem2 H; simpl; [reflexivity|].
  rewrite (H a) by lia.
  f_equal; apply IH; intros x Hx; apply H; lia.
Qed.

Section DeviceTexts.
Context {D : Defines}.
Hypothesis Hflags : flags_distinct.

(** X9: [write_to_eeprom] touches the cells of the text only: for a
    text that fits below address 4096, a read at an address in 0..4095
    outside the text returns the same byte before and after the string
    write. *)
Theorem write_to_eeprom_leaves_other_cells (fuel : nat) (d : eeprom_bus)
    (s : string) (a b read_val read_val' : Z) :
  0 <= a -> a + Z.of_nat (strlen s) <= 4096 ->
  0 <= b <= 4095 -> b < a \/ a + Z.of_nat (strlen s) <= b ->
  (write_cycle d < fuel)%nat -> (t_wc d < fuel)%nat ->
  exists x d0 d1 d2,
    eeprom_byte_read fuel I2C1_BASE b read_val d = Some ((I2C_OK, x), d0) /\
    write_to_eeprom fuel s a d0 = Some (tt, d1) /\
    eeprom_byte_read fuel I2C1_BASE b read_val' d1
    = Some ((I2C_OK, x), d2).
Proof.
  intros Ha Hlen Hb Hout Hw Ht.
  rewrite (byte_read_device Hflags) by exact Hw.
  destruct (write_to_eeprom_device Hflags fuel s a
              (fetched MCP24LC32AT_DEV_ID d (decoded b)))
    as [d1 [E [Hc [_ Hw1]]]]; try (simpl; lia).
  eexists; eexists; exists d1; eexists; split; [reflexivity|].
  split; [exact E|].
  rewrite (byte_read_device Hflags) by exact Hw1.
  rewrite Hc, decoded_in_range, blit_outside by lia.
  reflexivity.
Qed.

Lemma print_from_eeprom_device fuel count :
  forall a read_val (d : eeprom_bus),
    0 <= a -> a + Z.of_nat count <= 4096 ->
    (write_cycle d < fuel)%nat ->
    exists last d2,
      print_from_eeprom fuel count a read_val d
      = Some ((text count a (cells d), last), d2) /\
      cells d2 = cells d /\ t_wc d2 = t_wc d /\
      (write_cycle d2 < fuel)%nat.
Proof.
  induction count as [|count IH]; intros a read_val d Ha Hlen Hw; simpl.
  - exists read_val, d; auto.
  - unfold bind at 1, read_from_eprom, bind at 1.
    rewrite (byte_read_device Hflags) by exact Hw.
    rewrite uint16_small, decoded_in_range by lia.
    unfold ret at 1, bind at 1.
    destruct (IH (a + 1) (cells d a) (fetched MCP24LC32AT_DEV_ID d a))
      as [last [d2 [E [Hc [Ht Hw2]]]]]; simpl; try lia.
    simpl in E, Hc, Ht; rewrite E.
    exists last, d2; auto.
Qed.

Lemma write_then_print fuel s a read_val (d : eeprom_bus) :
  0 <= a -> a + Z.of_nat (strlen s) <= 4096 ->
  (write_cycle d < fuel)%nat -> (t_wc d < fuel)%nat ->
  exists last d1 d2,
    write_to_eeprom fuel s a d = Some (tt, d1) /\
    print_from_eeprom fuel (strlen s) a read_val d1
    = Some ((c_str s, last), d2) /\
    cells d2 = blit s a (cells d) /\ t_wc d2 = t_wc d /\
    (write_cycle d2 < fuel)%nat.
Proof.
  intros Ha Hlen Hw Ht.
  destruct (write_to_eeprom_device Hflags fuel s a d Ha Hlen Hw Ht)
    as [d1 [E [Hc [Ht1 Hw1]]]].
  destruct (print_from_eeprom_device fuel (strlen s) a read_val d1 Ha Hlen Hw1)
    as [last [d2 [E2 [Hc2 [Ht2 Hw2]]]]].
  exists last, d1, d2; split; [exact E|].
  rewrite E2, Hc, text_blit.
  repeat split; congruence.
Qed.

(** X10: The demonstration prints its four texts one after the other, and
    since the offsets 250, 330, 410 and 490 leave room for each text,
    no write overwrites an earlier one: when it returns the memory
    holds all four texts at their offsets and is otherwise as it
    was. *)
Theorem eeprom_init_write_read_prints_and_keeps (fuel : nat)
    (d : eeprom_bus) (read_val : Z) :
  (write_cycle d < fuel)%nat -> (t_wc d < fuel)%nat ->
  exists d',
    eeprom_init_write_read fuel read_val d
    = Some ((reset ++ name1 ++ name2 ++ teamNum)%string, d') /\
    text (strlen reset) 250 (cells d') = reset /\
    text (strlen name1) 330 (cells d') = name1 /\
    text (strlen name2) 410 (cells d') = name2 /\
    text (strlen teamNum) 490 (cells d') = teamNum /\
    (forall x,
        x < 250 \/ 329 <= x < 330 \/ 354 <= x < 410 \/
        432 <= x < 490 \/ 506 <= x ->
        cells d' x = cells d x).
Proof.
  intros Hw Ht; unfold eeprom_init_write_read.
  assert (L1 : strlen reset = 79%nat) by reflexivity.
  assert (L2 : strlen name1 = 24%nat) by reflexivity.
  assert (L3 : strlen name2 = 22%nat) by reflexivity.
  assert (L4 : strlen teamNum = 16%nat) by reflexivity.
  destruct (write_then_print fuel reset 250 read_val d)
    as [v1 [w1 [d1 [E1 [P1 [C1 [T1 W1]]]]]]]; try (rewrite ?L1; lia).
  destruct (write_then_print fuel name1 330 v1 d1)
    as [v2 [w2 [d2 [E2 [P2 [C2 [T2 W2]]]]]]]; try (rewrite ?L2; lia).
  destruct (write_then_print fuel name2 410 v2 d2)
    as [v3 [w3 [d3 [E3 [P3 [C3 [T3 W3]]]]]]]; try (rewrite ?L3; lia).
  destruct (write_then_print fuel teamNum 490 v3 d3)
    as [v4 [w4 [d4 [E4 [P4 [C4 [T4 W4]]]]]]]; try (rewrite ?L4; lia).
  unfold bind; rewrite E1, P1, E2, P2, E3, P3, E4, P4.
  exists d4; split; [reflexivity|].
  rewrite C4, C3, C2, C1.
  split; [|split; [|split; [|split]]].
  - transitivity (text (strlen reset) 250 (blit reset 250 (cells d)));
      [|now rewrite text_blit].
    apply text_agrees; intros x Hx; rewrite L1 in Hx.
    rewrite !(blit_outside _ _ _ x) by (rewrite ?L2, ?L3, ?L4; lia).
    reflexivity.
  - transitivity (text (strlen name1) 330
                    (blit name1 330 (blit reset 250 (cells d))));
      [|now rewrite text_blit].
    apply text_agrees; intros x Hx; rewrite L2 in Hx.
    rewrite !(blit_outside _ _ _ x) by (rewrite ?L3, ?L4; lia).
    reflexivity.
  - transitivity (text (strlen name2) 410
                    (blit name2 410
                       (blit name1 330 (blit reset 250 (cells d)))));
      [|now rewrite text_blit].
    apply text_agrees; intros x Hx; rewrite L3 in Hx.
    rewrite !(blit_outside _ _ _ x) by (rewrite ?L4; lia).
    reflexivity.
  - now rewrite text_blit.
  - intros x Hx.
    rewrite !(blit_outside _ _ _ x) by (rewrite ?L1, ?L2, ?L3, ?L4; lia).
    reflexivity.
Qed.

End DeviceTexts.

(** The team text at 490 seen from the cell just before it. *)
Lemma write_to_eeprom_leaves_other_cells_witness :
  exists x d0 d1 d2,
    @eeprom_byte_read tm4c123 eeprom_bus (@eeprom_i2c tm4c123) 4
      0x40021000 489 0 (eeprom_with 3 (fun _ => 0xFF) 2)
    = Some ((I2C_OK, x), d0) /\
    @write_to_eeprom tm4c123 eeprom_bus (@eeprom_i2c tm4c123) 4
      teamNum 490 d0 = Some (tt, d1) /\
    @eeprom_byte_read tm4c123 eeprom_bus (@eeprom_i2c tm4c123) 4
      0x40021000 489 0 d1
    = Some ((I2C_OK, x), d2).
Proof.
  apply (@write_to_eeprom_leaves_other_cells tm4c123 tm4c123_flags_distinct
           4 (eeprom_with 3 (fun _ => 0xFF) 2) teamNum 490 489 0 0);
    simpl; lia.
Defined.

(** The demonstration on a device caught in a write cycle. *)
Lemma eeprom_init_write_read_prints_and_keeps_witness :
  exists d',
    @eeprom_init_write_read tm4c123 eeprom_bus (@eeprom_i2c tm4c123) 4 0
      (eeprom_with 3 (fun _ => 0xFF) 2)
    = Some ((reset ++ name1 ++ name2 ++ teamNum)%string, d').
Proof.
  destruct (@eeprom_init_write_read_prints_and_keeps tm4c123
              tm4c123_flags_distinct 4 (eeprom_with 3 (fun _ => 0xFF) 2) 0)
    as [d' [E _]]; try (simpl; lia).
  exists d'; exact E.
Defined.

(** * Properties of the game *)

(** ** Drawing at a position *)

Lemma length_replaced {A : Type} (l : list A) i a :
  List.length (replaced l i a) = List.length l.
Proof.
  revert i; induction l as [|b l IH]; intros [|i]; simpl; auto.
Qed.

Lemma nth_error_replaced {A : Type} (l : list A) i a b :
  nth_error l i = Some b -> nth_error (replaced l i a) i = Some a.
Proof.
  revert i; induction l as [|c l IH]; intros [|i]; simpl;
    try discriminate; auto.
Qed.

Lemma nth_error_in_range {A : Type} (l : list A) i :
  (i < List.length l)%nat -> exists a, nth_error l i = Some a.
Proof.
  intros H; destruct (nth_error l i) as [a|] eqn:E; [eauto|].
  apply nth_error_None in E; lia.
Qed.

Lemma draw_at_aimed type ptr i y (g : game) :
  aims type ptr g ->
  exists g' c,
    draw_at type ptr i y g = Done tt g' /\
    aims type ptr g' /\
    position ptr g' = Some (i, y) /\
    lcd g' = lcd g ++ [c] /\ drawn_x c = i.
Proof.
  intros [[Hc Hp]|[Hc [Ho Hp]]]; unfold draw_at; rewrite Hc.
  - destruct Hp as [-> | ->]; unfold drawCharacter, gbind; simpl;
      eexists; eexists; (split; [reflexivity|]); simpl;
      (split; [left; auto|auto]).
  - rewrite Ho; destruct Hp as [-> | [k [-> Hk]]].
    + unfold drawObject, gbind; simpl.
      eexists; eexists; (split; [reflexivity|]); simpl.
      split; [right; auto|auto].
    + destruct (nth_error_in_range _ _ Hk) as [o Eo].
      unfold drawObject, gbind; simpl; repeat (rewrite Eo; simpl).
      rewrite (nth_error_replaced _ _ _ _ Eo).
      eexists; eexists; (split; [reflexivity|]); simpl.
      rewrite (nth_error_replaced _ _ _ _ Eo); simpl.
      split; [|auto].
      right; repeat split; auto.
      right; exists k; split; [reflexivity|].
      simpl; now rewrite length_replaced.
Qed.

Lemma draw_at_unknown type ptr i y (g : game) :
  unknown_tag type -> draw_at type ptr i y g = Done tt g.
Proof.
  intros [Hc Ho]; unfold draw_at; now rewrite Hc, Ho.
Qed.

Lemma uint16_in_range x : 0 <= x <= 65535 -> uint16 x = x.
Proof.
  intros H; unfold uint16; change (2 ^ 16) with 65536.
  apply Z.mod_small; lia.
Qed.

Lemma uint16_bounds x : 0 <= uint16 x <= 65535.
Proof.
  unfold uint16; change (2 ^ 16) with 65536.
  pose proof (Z.mod_pos_bound x 65536 ltac:(lia)); lia.
Qed.

Lemma int32_of_difference x :
  - 2 ^ 31 <= x < 2 ^ 31 -> int32 (uint32 x) = x.
Proof.
  intros H; unfold int32, uint32.
  change (2 ^ 31) with 2147483648 in *.
  change (2 ^ 32) with 4294967296 in *.
  rewrite Z.mod_mod by lia.
  destruct (Z.lt_ge_cases x 0) as [Hneg|Hpos].
  - replace (x mod 4294967296) with (x + 4294967296).
    + destruct (x + 4294967296 <? 2147483648) eqn:E;
        [apply Z.ltb_lt in E; lia|lia].
    + apply (Z.mod_unique _ _ (-1)); lia.
  - rewrite Z.mod_small by lia.
    destruct (x <? 2147483648) eqn:E; [reflexivity|apply Z.ltb_ge in E; lia].
Qed.

Lemma uint32_in_range x : 0 <= x < 2 ^ 32 -> uint32 x = x.
Proof. intros H; unfold uint32; apply Z.mod_small; exact H. Qed.

(** ** Moving left *)

Lemma move_Left_loop_runs type ptr y bound :
  1 <= bound ->
  forall n fuel i (g : game),
    aims type ptr g ->
    i = bound + Z.of_nat n -> i <= 65535 -> (n + 1 < fuel)%nat ->
    exists g' new,
      move_Left_loop fuel i bound y type ptr g = Done tt g' /\
      aims type ptr g' /\
      position ptr g' = Some (bound, y) /\
      lcd g' = lcd g ++ new /\
      map drawn_x new = leftwards i (S n).
Proof.
  intros Hb; induction n as [|n IH]; intros fuel i g Ha Hi Hmax Hf.
  - destruct fuel as [|[|fuel]]; try lia.
    destruct (draw_at_aimed type ptr i y g Ha) as [g1 [c [E [Ha1 [Hp [Hl Hx]]]]]].
    cbn [move_Left_loop].
    destruct (bound <=? i) eqn:Ec; [|apply Z.leb_gt in Ec; lia].
    unfold gbind at 1; rewrite E.
    rewrite uint16_in_range by lia.
    destruct (bound <=? i - 1) eqn:Ec'; [apply Z.leb_le in Ec'; lia|].
    exists g1, [c]; repeat split; auto.
    + rewrite Hp; f_equal; f_equal; lia.
    + simpl; now rewrite Hx.
  - destruct fuel as [|fuel]; try lia.
    destruct (draw_at_aimed type ptr i y g Ha) as [g1 [c [E [Ha1 [Hp [Hl Hx]]]]]].
    cbn [move_Left_loop].
    destruct (bound <=? i) eqn:Ec; [|apply Z.leb_gt in Ec; lia].
    unfold gbind at 1; rewrite E.
    rewrite uint16_in_range by lia.
    destruct (IH fuel (i - 1) g1 Ha1) as [g' [new [E' [Ha' [Hp' [Hl' Hx']]]]]];
      try lia.
    exists g', (c :: new); repeat split; auto.
    + rewrite Hl', Hl, <- app_assoc; reflexivity.
    + simpl; rewrite Hx; f_equal; exact Hx'.
Qed.

Lemma move_Left_loop_idle type ptr y bound fuel i
    (g : game) :
  i < bound -> (0 < fuel)%nat ->
  move_Left_loop fuel i bound y type ptr g = Done tt g.
Proof.
  intros Hi Hf; destruct fuel as [|fuel]; [lia|]; simpl.
  destruct (bound <=? i) eqn:E; [apply Z.leb_le in E; lia|reflexivity].
Qed.

Lemma move_Left_loop_spins type ptr y :
  forall fuel i (g : game),
    aims type ptr g \/ unknown_tag type ->
    0 <= i <= 65535 ->
    move_Left_loop fuel i 0 y type ptr g = Spinning.
Proof.
  induction fuel as [|fuel IH]; intros i g Ha Hi; [reflexivity|].
  cbn [move_Left_loop].
  destruct (0 <=? i) eqn:Ec; [|apply Z.leb_gt in Ec; lia].
  unfold gbind at 1.
  destruct Ha as [Ha|Hu].
  - destruct (draw_at_aimed type ptr i y g Ha) as [g1 [c [E [Ha1 _]]]].
    rewrite E; apply IH; [now left|apply uint16_bounds].
  - rewrite (draw_at_unknown type ptr i y g Hu).
    apply IH; [now right|apply uint16_bounds].
Qed.

(** X11: [move_Left] moves the object left by [num_pixels] but not past
    [minX]: for a left limit of at least 1 it returns, having drawn the
    object once at each column from [xPos] down to the larger of
    [minX] and [xPos - num_pixels], where it leaves it, on the row
    [yPos]. *)
Theorem move_Left_stops_at_the_limit
    fuel xPos yPos num_pixels minX type ptr (g : game) :
  aims type ptr g ->
  1 <= minX <= xPos -> xPos <= 65535 -> 0 <= num_pixels < 2 ^ 31 ->
  let target := Z.max minX (xPos - num_pixels) in
  (Z.to_nat (xPos - target) + 1 < fuel)%nat ->
  exists g' new,
    move_Left fuel xPos yPos num_pixels minX type ptr g = Done tt g' /\
    position ptr g' = Some (target, yPos) /\
    lcd g' = lcd g ++ new /\
    map drawn_x new = leftwards xPos (S (Z.to_nat (xPos - target))).
Proof.
  intros Ha Hmin Hmax Hn target Hf; subst target.
  change (2 ^ 31) with 2147483648 in Hn.
  unfold move_Left.
  rewrite int32_of_difference
    by (change (2 ^ 31) with 2147483648; lia).
  destruct (xPos - num_pixels <? minX) eqn:Ec.
  - apply Z.ltb_lt in Ec.
    rewrite Z.max_l in * by lia.
    destruct (move_Left_loop_runs type ptr yPos minX ltac:(lia)
                (Z.to_nat (xPos - minX)) fuel xPos g Ha)
      as [g' [new [E [_ [Hp [Hl Hx]]]]]]; try lia.
    exists g', new; auto.
  - apply Z.ltb_ge in Ec.
    rewrite Z.max_r in * by lia.
    rewrite uint32_in_range
      by (change (2 ^ 32) with 4294967296; lia).
    rewrite uint16_in_range by lia.
    destruct (move_Left_loop_runs type ptr yPos (xPos - num_pixels)
                ltac:(lia) (Z.to_nat (xPos - (xPos - num_pixels))) fuel
                xPos g Ha)
      as [g' [new [E [_ [Hp [Hl Hx]]]]]]; try lia.
    exists g', new; auto.
Qed.

(** The octopus moved five columns left from column 30 with the left
    limit at 27: it stops at 27 after four drawings. *)
Lemma move_Left_stops_at_the_limit_witness :
  exists g' new,
    @move_Left 10 30 290 5 27 "character"%string To_octopus
      (@initial_game sample_game_defines false 0) = Done tt g' /\
    position To_octopus g' = Some (27, 290) /\
    lcd g' = new /\
    map drawn_x new = [30; 29; 28; 27].
Proof.
  apply (@move_Left_stops_at_the_limit 10 30 290 5 27
           "character"%string To_octopus
           (@initial_game sample_game_defines false 0)).
  - left; split; [reflexivity|now right].
  - lia.
  - lia.
  - change (2 ^ 31) with 2147483648; lia.
  - simpl; lia.
Defined.

(** X12: With a left limit of 0 the loop test [i >= 0] on an unsigned
    counter never fails: a call of [move_Left] that asks for at least
    [xPos] and fewer than 2^31 pixels does not return, whatever the
    loop budget. *)
Theorem move_Left_never_returns_at_limit_zero
    xPos yPos num_pixels type ptr (g : game) :
  aims type ptr g \/ unknown_tag type ->
  0 <= xPos <= 65535 -> xPos <= num_pixels < 2 ^ 31 ->
  forall fuel,
    move_Left fuel xPos yPos num_pixels 0 type ptr g = Spinning.
Proof.
  intros Ha Hx Hn fuel.
  change (2 ^ 31) with 2147483648 in Hn.
  unfold move_Left.
  rewrite int32_of_difference
    by (change (2 ^ 31) with 2147483648; lia).
  destruct (xPos - num_pixels <? 0) eqn:Ec.
  - now apply move_Left_loop_spins.
  - apply Z.ltb_ge in Ec.
    replace (xPos - num_pixels) with 0 by lia.
    change (uint16 (uint32 0)) with 0.
    now apply move_Left_loop_spins.
Qed.

(** The ufo asked to move 200 columns left from column 120 with the
    limit at 0, with a budget of 1000 iterations. *)
Lemma move_Left_never_returns_at_limit_zero_witness :
  @move_Left 1000 120 30 200 0 "character"%string To_ufo
    (@initial_game sample_game_defines false 0) = Spinning.
Proof.
  apply (@move_Left_never_returns_at_limit_zero
           120 30 200 "character"%string To_ufo
           (@initial_game sample_game_defines false 0)).
  - left; left; split; [reflexivity|now left].
  - lia.
  - change (2 ^ 31) with 2147483648; lia.
Defined.

Lemma move_Left_loop_unknown type ptr y bound :
  unknown_tag type -> 1 <= bound ->
  forall n fuel i (g : game),
    i = bound + Z.of_nat n -> i <= 65535 -> (n + 1 < fuel)%nat ->
    move_Left_loop fuel i bound y type ptr g = Done tt g.
Proof.
  intros Hu Hb; induction n as [|n IH]; intros fuel i g Hi Hmax Hf;
    (destruct fuel as [|fuel]; [lia|]);
    cbn [move_Left_loop];
    (destruct (bound <=? i) eqn:Ec; [|apply Z.leb_gt in Ec; lia]);
    unfold gbind at 1; rewrite (draw_at_unknown type ptr i y g Hu);
    rewrite uint16_in_range by lia.
  - apply move_Left_loop_idle; lia.
  - apply IH; lia.
Qed.

(** X13: for a 16-bit [xPos] and [num_pixels] below 2^31, [move_Left]
    leaves everything as it is, display included, in two cases: when
    the object already stands left of the limit ([xPos < minX]),
    whatever the tag and the pointer; and when the type tag is neither
    "character" nor "object" and the limit is at least 1 and not right
    of the object ([1 <= minX <= xPos]), in which case the loop runs
    its course without a drawing.  With a limit of 0 the second case
    need not return. *)
Theorem move_Left_changes_nothing
    fuel xPos yPos num_pixels minX type ptr (g : game) :
  0 <= xPos <= 65535 -> 0 <= num_pixels < 2 ^ 31 ->
  (xPos < minX /\ (0 < fuel)%nat) \/
  (unknown_tag type /\ 1 <= minX <= xPos /\
   (Z.to_nat (xPos - Z.max minX (xPos - num_pixels)) + 1 < fuel)%nat) ->
  move_Left fuel xPos yPos num_pixels minX type ptr g = Done tt g.
Proof.
  intros Hx Hn Hcase.
  change (2 ^ 31) with 2147483648 in Hn.
  unfold move_Left.
  rewrite int32_of_difference
    by (change (2 ^ 31) with 2147483648; lia).
  destruct Hcase as [[Hleft Hf]|[Hu [Hmin Hf]]].
  - destruct (xPos - num_pixels <? minX) eqn:Ec;
      [|apply Z.ltb_ge in Ec; lia].
    now apply move_Left_loop_idle.
  - destruct (xPos - num_pixels <? minX) eqn:Ec.
    + apply Z.ltb_lt in Ec; rewrite Z.max_l in Hf by lia.
      apply (move_Left_loop_unknown type ptr yPos minX Hu ltac:(lia)
               (Z.to_nat (xPos - minX))); lia.
    + apply Z.ltb_ge in Ec; rewrite Z.max_r in Hf by lia.
      rewrite uint32_in_range
        by (change (2 ^ 32) with 4294967296; lia).
      rewrite uint16_in_range by lia.
      apply (move_Left_loop_unknown type ptr yPos (xPos - num_pixels) Hu
               ltac:(lia) (Z.to_nat (xPos - (xPos - num_pixels)))); lia.
Qed.

(** A tag the loops do not know. *)
Lemma move_Left_changes_nothing_witness :
  @move_Left 10 30 290 5 27 "shield"%string To_octopus
    (@initial_game sample_game_defines false 0)
  = Done tt (@initial_game sample_game_defines false 0).
Proof.
  apply (@move_Left_changes_nothing 10 30 290 5 27
           "shield"%string To_octopus (@initial_game sample_game_defines false 0)).
  - lia.
  - change (2 ^ 31) with 2147483648; lia.
  - right; split; [split; reflexivity|]. split; [lia|simpl; lia].
Defined.

(** ** Moving right *)

Lemma move_Right_loop_idle type ptr y bound fuel i (g : game) :
  bound < i -> (0 < fuel)%nat ->
  move_Right_loop fuel i bound y type ptr g = Done tt g.
Proof.
  intros Hi Hf; destruct fuel as [|fuel]; [lia|]; simpl.
  destruct (i <=? bound) eqn:E; [apply Z.leb_le in E; lia|reflexivity].
Qed.

Lemma move_Right_loop_runs type ptr y bound :
  bound <= 65534 ->
  forall n fuel i (g : game),
    aims type ptr g ->
    0 <= i -> i + Z.of_nat n = bound -> (n + 1 < fuel)%nat ->
    exists g' new,
      move_Right_loop fuel i bound y type ptr g = Done tt g' /\
      aims type ptr g' /\
      position ptr g' = Some (bound, y) /\
      lcd g' = lcd g ++ new /\
      map drawn_x new = rightwards i (S n).
Proof.
  intros Hb; induction n as [|n IH]; intros fuel i g Ha H0 Hi Hf;
    (destruct fuel as [|fuel]; [lia|]);
    destruct (draw_at_aimed type ptr i y g Ha)
      as [g1 [c [E [Ha1 [Hp [Hl Hx]]]]]];
    cbn [move_Right_loop];
    (destruct (i <=? bound) eqn:Ec; [|apply Z.leb_gt in Ec; lia]);
    unfold gbind at 1; rewrite E;
    rewrite uint16_in_range by lia.
  - rewrite move_Right_loop_idle by lia.
    exists g1, [c]; repeat split; auto.
    + rewrite Hp; f_equal; f_equal; lia.
    + simpl; now rewrite Hx.
  - destruct (IH fuel (i + 1) g1 Ha1) as [g' [new [E' [Ha' [Hp' [Hl' Hx']]]]]];
      try lia.
    exists g', (c :: new); repeat split; auto.
    + rewrite Hl', Hl, <- app_assoc; reflexivity.
    + simpl; rewrite Hx; f_equal; exact Hx'.
Qed.

Lemma move_Right_loop_unknown type ptr y bound :
  unknown_tag type -> bound <= 65534 ->
  forall n fuel i (g : game),
    0 <= i -> i + Z.of_nat n = bound -> (n + 1 < fuel)%nat ->
    move_Right_loop fuel i bound y type ptr g = Done tt g.
Proof.
  intros Hu Hb; induction n as [|n IH]; intros fuel i g H0 Hi Hf;
    (destruct fuel as [|fuel]; [lia|]);
    cbn [move_Right_loop];
    (destruct (i <=? bound) eqn:Ec; [|apply Z.leb_gt in Ec; lia]);
    unfold gbind at 1; rewrite (draw_at_unknown type ptr i y g Hu);
    rewrite uint16_in_range by lia.
  - apply move_Right_loop_idle; lia.
  - apply IH; lia.
Qed.

Lemma move_Right_loop_spins type ptr y :
  forall fuel i (g : game),
    aims type ptr g \/ unknown_tag type ->
    0 <= i <= 65535 ->
    move_Right_loop fuel i 65535 y type ptr g = Spinning.
Proof.
  induction fuel as [|fuel IH]; intros i g Ha Hi; [reflexivity|].
  cbn [move_Right_loop].
  destruct (i <=? 65535) eqn:Ec; [|apply Z.leb_gt in Ec; lia].
  unfold gbind at 1.
  destruct Ha as [Ha|Hu].
  - destruct (draw_at_aimed type ptr i y g Ha) as [g1 [c [E [Ha1 _]]]].
    rewrite E; apply IH; [now left|apply uint16_bounds].
  - rewrite (draw_at_unknown type ptr i y g Hu).
    apply IH; [now right|apply uint16_bounds].
Qed.

(** X14: [move_Right] moves the object right by [num_pixels] but not past
    [maxX]: for a right limit below 65535 it returns, having drawn the
    object once at each column from [xPos] up to the smaller of [maxX]
    and [xPos + num_pixels], where it leaves it, on the row [yPos]. *)
Theorem move_Right_stops_at_the_limit
    fuel xPos yPos num_pixels maxX type ptr (g : game) :
  aims type ptr g ->
  0 <= xPos <= maxX -> maxX <= 65534 -> 0 <= num_pixels < 2 ^ 31 ->
  let target := Z.min maxX (xPos + num_pixels) in
  (Z.to_nat (target - xPos) + 1 < fuel)%nat ->
  exists g' new,
    move_Right fuel xPos yPos num_pixels maxX type ptr g = Done tt g' /\
    position ptr g' = Some (target, yPos) /\
    lcd g' = lcd g ++ new /\
    map drawn_x new = rightwards xPos (S (Z.to_nat (target - xPos))).
Proof.
  intros Ha Hmin Hmax Hn target Hf; subst target.
  change (2 ^ 31) with 2147483648 in Hn.
  unfold move_Right.
  rewrite uint32_in_range by (change (2 ^ 32) with 4294967296; lia).
  destruct (maxX <? xPos + num_pixels) eqn:Ec.
  - apply Z.ltb_lt in Ec.
    rewrite Z.min_l in * by lia.
    destruct (move_Right_loop_runs type ptr yPos maxX Hmax
                (Z.to_nat (maxX - xPos)) fuel xPos g Ha)
      as [g' [new [E [_ [Hp [Hl Hx]]]]]]; try lia.
    exists g', new; auto.
  - apply Z.ltb_ge in Ec.
    rewrite Z.min_r in * by lia.
    rewrite uint16_in_range by lia.
    destruct (move_Right_loop_runs type ptr yPos (xPos + num_pixels)
                ltac:(lia) (Z.to_nat (xPos + num_pixels - xPos)) fuel
                xPos g Ha)
      as [g' [new [E [_ [Hp [Hl Hx]]]]]]; try lia.
    exists g', new; auto.
Qed.

(** The first shield moved three columns right from column 100. *)
Lemma move_Right_stops_at_the_limit_witness :
  exists g' new,
    @move_Right 10 100 50 3 189 "object"%string (To_shield 0)
      (@initial_game sample_game_defines false 0) = Done tt g' /\
    position (To_shield 0) g' = Some (103, 50) /\
    lcd g' = new /\
    map drawn_x new = [100; 101; 102; 103].
Proof.
  apply (@move_Right_stops_at_the_limit 10 100 50 3 189 "object"%string
           (To_shield 0) (@initial_game sample_game_defines false 0)).
  - right; split; [reflexivity|]. split; [reflexivity|].
    right; exists O; split; [reflexivity|simpl; lia].
  - lia.
  - lia.
  - change (2 ^ 31) with 2147483648; lia.
  - simpl; lia.
Defined.

(** X15: With a right limit of 65535 the loop test [i <= maxX] on a 16-bit
    counter never fails: a call of [move_Right] that asks to reach
    column 65535 or beyond, by fewer than 2^31 pixels, does not
    return, whatever the loop budget. *)
Theorem move_Right_never_returns_at_limit_65535
    xPos yPos num_pixels type ptr (g : game) :
  aims type ptr g \/ unknown_tag type ->
  0 <= xPos <= 65535 -> 65535 <= xPos + num_pixels ->
  0 <= num_pixels < 2 ^ 31 ->
  forall fuel,
    move_Right fuel xPos yPos num_pixels 65535 type ptr g = Spinning.
Proof.
  intros Ha Hx Hreach Hn fuel.
  change (2 ^ 31) with 2147483648 in Hn.
  unfold move_Right.
  rewrite uint32_in_range by (change (2 ^ 32) with 4294967296; lia).
  destruct (65535 <? xPos + num_pixels) eqn:Ec.
  - now apply move_Right_loop_spins.
  - apply Z.ltb_ge in Ec.
    replace (xPos + num_pixels) with 65535 by lia.
    change (uint16 65535) with 65535.
    now apply move_Right_loop_spins.
Qed.

(** The bullet asked to move 65535 columns right from column 0. *)
Lemma move_Right_never_returns_at_limit_65535_witness :
  @move_Right 1000 0 10 65535 65535 "object"%string To_bullet
    (@initial_game sample_game_defines false 0) = Spinning.
Proof.
  apply (@move_Right_never_returns_at_limit_65535 0 10 65535
           "object"%string To_bullet
           (@initial_game sample_game_defines false 0)).
  - left; right; split; [reflexivity|]. split; [reflexivity|now left].
  - lia.
  - lia.
  - change (2 ^ 31) with 2147483648; lia.
Defined.

(** X16: for a 16-bit [xPos] and [num_pixels] below 2^31, [move_Right]
    leaves everything as it is, display included, in two cases: when
    the object already stands right of the limit ([0 <= maxX < xPos]),
    whatever the tag and the pointer; and when the type tag is neither
    "character" nor "object" and the limit is at most 65534 and not
    left of the object ([xPos <= maxX <= 65534]), in which case the
    loop runs its course without a drawing.  With a limit of 65535
    the second case need not return. *)
Theorem move_Right_changes_nothing
    fuel xPos yPos num_pixels maxX type ptr (g : game) :
  0 <= xPos <= 65535 -> 0 <= num_pixels < 2 ^ 31 ->
  (0 <= maxX < xPos /\ (0 < fuel)%nat) \/
  (unknown_tag type /\ xPos <= maxX <= 65534 /\
   (Z.to_nat (Z.min maxX (xPos + num_pixels) - xPos) + 1 < fuel)%nat) ->
  move_Right fuel xPos yPos num_pixels maxX type ptr g = Done tt g.
Proof.
  intros Hx Hn Hcase.
  change (2 ^ 31) with 2147483648 in Hn.
  unfold move_Right.
  rewrite uint32_in_range by (change (2 ^ 32) with 4294967296; lia).
  destruct Hcase as [[Hright Hf]|[Hu [Hmax Hf]]].
  - destruct (maxX <? xPos + num_pixels) eqn:Ec;
      [|apply Z.ltb_ge in Ec; lia].
    now apply move_Right_loop_idle.
  - destruct (maxX <? xPos + num_pixels) eqn:Ec.
    + apply Z.ltb_lt in Ec; rewrite Z.min_l in Hf by lia.
      apply (move_Right_loop_unknown type ptr yPos maxX Hu ltac:(lia)
               (Z.to_nat (maxX - xPos))); lia.
    + apply Z.ltb_ge in Ec; rewrite Z.min_r in Hf by lia.
      rewrite uint16_in_range by lia.
      apply (move_Right_loop_unknown type ptr yPos (xPos + num_pixels) Hu
               ltac:(lia) (Z.to_nat (xPos + num_pixels - xPos))); lia.
Qed.

(** The ufo standing right of its limit. *)
Lemma move_Right_changes_nothing_witness :
  @move_Right 1 120 30 5 100 "character"%string To_ufo
    (@initial_game sample_game_defines false 0)
  = Done tt (@initial_game sample_game_defines false 0).
Proof.
  apply (@move_Right_changes_nothing 1 120 30 5 100 "character"%string
           To_ufo (@initial_game sample_game_defines false 0)).
  - lia.
  - change (2 ^ 31) with 2147483648; lia.
  - left; lia.
Defined.

(** ** The flight of the bullet *)

Lemma touches_marked o h s :
  touches (GameObj.marked o h) s = touches o s.
Proof. reflexivity. Qed.

Lemma skipn_nth_error {A : Type} (l : list A) i a :
  nth_error l i = Some a -> skipn i l = a :: skipn (S i) l.
Proof.
  revert i; induction l as [|b l IH]; intros [|i]; simpl;
    try discriminate.
  - intros E; inversion E; reflexivity.
  - intros E; rewrite (IH i E); reflexivity.
Qed.

Lemma check_shields_bullet count :
  forall i (g : game),
    (i + count <= List.length (shieldArray g))%nat ->
    check_shields count i To_bullet g =
    Done tt
      (if existsb (touches (bullet g))
            (firstn count (skipn i (shieldArray g)))
       then with_bullet g (GameObj.marked (bullet g) true)
       else g).
Proof.
  induction count as [|count IH]; intros i g Hlen; [reflexivity|].
  destruct (nth_error_in_range (shieldArray g) i ltac:(lia)) as [s Es].
  rewrite (skipn_nth_error _ _ _ Es).
  cbn [check_shields firstn existsb].
  unfold gbind at 1; cbn [load_object].
  unfold gbind at 1; cbn [load_object]; rewrite Es.
  unfold gbind at 1.
  destruct (touches (bullet g) s) eqn:Et; cbn [orb].
  - cbn [store_object].
    fold (with_bullet g (GameObj.marked (bullet g) true)).
    rewrite IH by (simpl; lia).
    cbn [bullet with_bullet shieldArray].
    destruct (existsb _ _); reflexivity.
  - unfold gret; apply IH; lia.
Qed.

Lemma bullet_flight_idle fuel (g : game) :
  (0 < fuel)%nat ->
  GameObj.yPos (bullet g) <= 1 \/ GameObj.hit (bullet g) = true ->
  bullet_flight fuel To_bullet g = Done tt g.
Proof.
  intros Hf Hc; destruct fuel as [|fuel]; [lia|].
  cbn [bullet_flight]; unfold gbind at 1; cbn [load_object].
  destruct Hc as [Hy|Hh].
  - destruct (1 <? GameObj.yPos (bullet g)) eqn:E;
      [apply Z.ltb_lt in E; lia|reflexivity].
  - rewrite Hh, andb_false_r; reflexivity.
Qed.

Lemma bullet_flight_step fuel (g : game) :
  1 < GameObj.yPos (bullet g) <= 65535 ->
  0 <= GameObj.xPos (bullet g) <= 65535 ->
  GameObj.hit (bullet g) = false ->
  shields_counted g ->
  let o := GameObj.moved (bullet g) (GameObj.xPos (bullet g))
             (GameObj.yPos (bullet g) - 1) in
  let g1 :=
    {| score := score g; numBullets := numBullets g;
       ufo := ufo g; octopus := octopus g;
       shieldArray := shieldArray g; numShields := numShields g;
       bullet := if stopped_by (shieldArray g) o
                 then GameObj.marked o true else o;
       readyShoot := readyShoot g;
       touch_event := touch_event g; lcd := lcd g ++ [box_of o] |} in
  bullet_flight (S fuel) To_bullet g = bullet_flight fuel To_bullet g1.
Proof.
  intros Hy Hx Hh Hc o g1.
  cbn [bullet_flight]; unfold gbind at 1; cbn [load_object].
  rewrite Hh.
  destruct (1 <? GameObj.yPos (bullet g)) eqn:E;
    [|apply Z.ltb_ge in E; lia].
  cbn [andb negb].
  unfold gbind at 1; cbn [store_object].
  unfold gbind at 1; cbn [load_object bullet].
  cbn [GameObj.moved GameObj.xPos GameObj.yPos].
  rewrite !uint16_in_range by lia.
  unfold gbind at 1, drawObject, gbind; cbn [load_object store_object bullet].
  cbn [display lcd shieldArray numShields].
  assert (Hn : Z.to_nat (numShields g) = List.length (shieldArray g))
    by (rewrite Hc; apply Nat2Z.id).
  rewrite Hn, check_shields_bullet by (cbn [shieldArray]; lia).
  cbn [shieldArray bullet skipn]; rewrite firstn_all.
  f_equal; unfold g1, stopped_by, with_bullet, o; simpl.
  destruct (existsb _ (shieldArray g)); reflexivity.
Qed.

Lemma same_but_bullet_refl (g : game) : same_but_bullet g g.
Proof. repeat split. Qed.

Lemma bullet_flight_runs :
  forall n fuel (g : game),
    GameObj.hit (bullet g) = false ->
    GameObj.yPos (bullet g) = Z.of_nat n + 1 ->
    (n < fuel)%nat ->
    shields_counted g ->
    0 <= GameObj.xPos (bullet g) <= 65535 ->
    GameObj.yPos (bullet g) <= 65535 ->
    exists g' y_f h_f new,
      bullet_flight fuel To_bullet g = Done tt g' /\
      bullet g' =
        GameObj.marked
          (GameObj.moved (bullet g) (GameObj.xPos (bullet g)) y_f) h_f /\
      same_but_bullet g g' /\
      lcd g' = lcd g ++ new /\
      List.length new = Z.to_nat (GameObj.yPos (bullet g) - y_f) /\
      1 <= y_f <= GameObj.yPos (bullet g) /\
      (h_f = false -> y_f = 1) /\
      (h_f = true ->
       y_f < GameObj.yPos (bullet g) /\
       stopped_by (shieldArray g)
         (GameObj.moved (bullet g) (GameObj.xPos (bullet g)) y_f) = true) /\
      (forall y,
          y_f < y < GameObj.yPos (bullet g) ->
          stopped_by (shieldArray g)
            (GameObj.moved (bullet g) (GameObj.xPos (bullet g)) y) = false).
Proof.
  induction n as [|n IH]; intros fuel g Hh Hy Hf Hc Hx Hmax.
  - rewrite bullet_flight_idle by (try lia; left; lia).
    exists g, 1, false, [].
    split; [reflexivity|].
    split; [destruct (bullet g); simpl in *; subst; reflexivity|].
    split; [apply same_but_bullet_refl|].
    split; [now rewrite app_nil_r|].
    split; [simpl; lia|].
    split; [lia|].
    split; [reflexivity|].
    split; [discriminate|].
    intros y Hyy; lia.
  - destruct fuel as [|fuel]; [lia|].
    rewrite bullet_flight_step by (auto; lia).
    destruct (stopped_by (shieldArray g)
                (GameObj.moved (bullet g) (GameObj.xPos (bullet g))
                   (GameObj.yPos (bullet g) - 1))) eqn:Es.
    + rewrite bullet_flight_idle by (try lia; right; reflexivity).
      eexists; exists (GameObj.yPos (bullet g) - 1), true; eexists.
      split; [reflexivity|]; cbn [bullet lcd].
      split; [reflexivity|].
      split; [repeat split|].
      split; [reflexivity|].
      split; [simpl; lia|].
      split; [lia|].
      split; [discriminate|].
      split; [intros _; split; [lia|exact Es]|].
      intros y Hyy; lia.
    + match goal with
      | |- context [bullet_flight fuel To_bullet ?g1] =>
          destruct (IH fuel g1)
            as [g' [y_f [h_f [new [E [Hb [Hs [Hl [Hlen [Hr [Hf0 [Hf1 Hclear]]]]]]]]]]]]
      end; cbn [bullet shieldArray numShields lcd GameObj.moved GameObj.hit
                GameObj.xPos GameObj.yPos] in *;
        try lia; auto.
      exists g', y_f, h_f,
        (box_of (GameObj.moved (bullet g) (GameObj.xPos (bullet g))
                   (GameObj.yPos (bullet g) - 1)) :: new).
      split; [exact E|].
      split; [exact Hb|].
      split; [exact Hs|].
      split; [rewrite Hl, <- app_assoc; reflexivity|].
      split; [simpl; lia|].
      split; [lia|].
      split; [exact Hf0|].
      split; [intros Ht; destruct (Hf1 Ht); split; [lia|assumption]|].
      intros y Hyy.
      destruct (Z.eq_dec y (GameObj.yPos (bullet g) - 1)) as [->|Hne];
        [exact Es|apply Hclear; lia].
Qed.

Lemma shootBullet_bullet {GD : GameDefines} fuel xPos yPos (g : game) :
  shootBullet fuel xPos yPos To_bullet g =
  match
    bullet_flight fuel To_bullet
      (with_bullet g (GameObj.moved (bullet g) xPos yPos))
  with
  | Done _ g1 =>
      Done tt
        {| score := score g1; numBullets := numBullets g1;
           ufo := ufo g1; octopus := octopus g1;
           shieldArray := shieldArray g1; numShields := numShields g1;
           bullet := GameObj.marked (bullet g1) false;
           readyShoot := readyShoot g1;
           touch_event := touch_event g1;
           lcd := lcd g1 ++ [erasure_of (bullet g1)] |}
  | Spinning => Spinning
  | Undefined => Undefined
  end.
Proof.
  unfold shootBullet, gbind; cbn [load_object store_object].
  fold (with_bullet g (GameObj.moved (bullet g) xPos yPos)).
  destruct (bullet_flight fuel To_bullet _); reflexivity.
Qed.

(** X17: [shootBullet] flies the bullet straight up from below: fired from
    the column [xPos] and a row [yPos] above 1, with its hit flag
    clear, it returns with the bullet in the same column on the first
    row above the start where some shield meets the hit test, or on row
    1 when no row does; no row passed on the way met the test.  One
    box is drawn per row travelled, then the erasing box at the final
    position, and the hit flag is clear again.  Nothing but the bullet
    and the display changes. *)
Theorem shootBullet_stops_at_the_first_shield {GD : GameDefines}
    fuel xPos yPos (g : game) :
  GameObj.hit (bullet g) = false ->
  0 <= xPos <= 65535 -> 1 < yPos <= 65535 ->
  shields_counted g ->
  (Z.to_nat yPos <= fuel)%nat ->
  exists g' y_f boxes,
    shootBullet fuel xPos yPos To_bullet g = Done tt g' /\
    bullet g' =
      GameObj.marked (GameObj.moved (bullet g) xPos y_f) false /\
    same_but_bullet g g' /\
    1 <= y_f < yPos /\
    (y_f = 1 \/
     stopped_by (shieldArray g)
       (GameObj.moved (bullet g) xPos y_f) = true) /\
    (forall y,
        y_f < y < yPos ->
        stopped_by (shieldArray g)
          (GameObj.moved (bullet g) xPos y) = false) /\
    lcd g' =
      lcd g ++ boxes
            ++ [erasure_of (GameObj.moved (bullet g) xPos y_f)] /\
    List.length boxes = Z.to_nat (yPos - y_f).
Proof.
  intros Hh Hx Hy Hc Hf.
  rewrite shootBullet_bullet.
  destruct (bullet_flight_runs (Z.to_nat (yPos - 1)) fuel
              (with_bullet g (GameObj.moved (bullet g) xPos yPos)))
    as [g1 [y_f [h_f [new [E [Hb [Hs [Hl [Hlen [Hr [Hf0 [Hf1 Hclear]]]]]]]]]]]];
    cbn [with_bullet bullet shieldArray numShields lcd GameObj.moved
         GameObj.hit GameObj.xPos GameObj.yPos] in *;
    try lia; auto.
  rewrite E.
  assert (Hlt : y_f < yPos).
  { destruct h_f; [now destruct (Hf1 eq_refl)|rewrite (Hf0 eq_refl); lia]. }
  eexists; exists y_f, new.
  split; [reflexivity|]; cbn [bullet lcd].
  split; [rewrite Hb; reflexivity|].
  split.
  { destruct Hs as [H1 [H2 [H3 [H4 [H5 [H6 [H7 H8]]]]]]].
    repeat split; assumption. }
  split; [lia|].
  split; [destruct h_f; [right; now destruct (Hf1 eq_refl)|left; auto]|].
  split; [exact Hclear|].
  split; [|exact Hlen].
  rewrite Hl, Hb, <- app_assoc; reflexivity.
Qed.

(** A bullet fired from (110, 290) under the first shield of game.c:
    the flight is cleared and the bullet comes back. *)
Lemma shootBullet_stops_at_the_first_shield_witness :
  exists g' y_f (boxes : list lcd_call),
    @shootBullet sample_game_defines 290 110 290 To_bullet
      (@initial_game sample_game_defines false 0) = Done tt g' /\
    GameObj.yPos (bullet g') = y_f /\
    1 <= y_f < 290 /\
    List.length boxes = Z.to_nat (290 - y_f).
Proof.
  destruct (@shootBullet_stops_at_the_first_shield sample_game_defines
              290 110 290 (@initial_game sample_game_defines false 0))
    as [g' [y_f [boxes [E [Hb [_ [Hr [_ [_ [_ Hlen]]]]]]]]]].
  - reflexivity.
  - lia.
  - lia.
  - reflexivity.
  - simpl; lia.
  - exists g', y_f, boxes; split; [exact E|].
    split; [rewrite Hb; reflexivity|]. split; [exact Hr|exact Hlen].
Defined.

(** X18: A bullet that cannot fly is erased where it is put: fired from row
    1 or row 0, or with its hit flag still set from before,
    [shootBullet] draws the erasing box at ([xPos], [yPos]) and nothing
    else, leaves the bullet there and clears the flag.  The shields
    are not looked at. *)
Theorem shootBullet_without_flight {GD : GameDefines}
    fuel xPos yPos (g : game) :
  (0 < fuel)%nat ->
  yPos <= 1 \/ GameObj.hit (bullet g) = true ->
  exists g',
    shootBullet fuel xPos yPos To_bullet g = Done tt g' /\
    bullet g' =
      GameObj.marked (GameObj.moved (bullet g) xPos yPos) false /\
    same_but_bullet g g' /\
    lcd g' = lcd g ++ [erasure_of (GameObj.moved (bullet g) xPos yPos)].
Proof.
  intros Hf Hcase.
  rewrite shootBullet_bullet, bullet_flight_idle; [| exact Hf |].
  - eexists; split; [reflexivity|]; cbn [bullet lcd with_bullet].
    split; [reflexivity|]. split; [repeat split|reflexivity].
  - cbn [with_bullet bullet GameObj.moved GameObj.yPos GameObj.hit].
    exact Hcase.
Qed.

(** A bullet fired from row 1. *)
Lemma shootBullet_without_flight_witness :
  exists g',
    @shootBullet sample_game_defines 1 110 1 To_bullet
      (@initial_game sample_game_defines false 0) = Done tt g' /\
    lcd g' = [Lcd_draw_box 110 10 1 10 0x07E0 0x07E0 1].
Proof.
  destruct (@shootBullet_without_flight sample_game_defines 1 110 1
              (@initial_game sample_game_defines false 0))
    as [g' [E [_ [_ Hl]]]].
  - lia.
  - left; lia.
  - exists g'; split; [exact E|exact Hl].
Defined.

Lemma stopped_by_initial_shields {GD : GameDefines} o :
  stopped_by initial_shields o = true <->
  (GameObj.yPos o = 100 /\ GameObj.xPos o < 150 /\
   100 <= GameObj.xPos o + GameObj.width o) \/
  (GameObj.yPos o = 140 /\ GameObj.xPos o < 80 /\
   50 <= GameObj.xPos o + GameObj.width o).
Proof.
  unfold stopped_by, initial_shields, touches; simpl.
  rewrite !orb_true_iff, !andb_true_iff, !Z.eqb_eq, !Z.ltb_lt, !Z.leb_le.
  change (50 + 50) with 100; change (100 + 50) with 150.
  change (120 + 20) with 140; change (50 + 30) with 80.
  intuition discriminate.
Qed.

(** X19: Where a bullet lands under the shields as game.c places them: shot
    up from a row above 1 with its hit flag clear, it stops on row 140,
    the bottom edge of the second shield, when it starts below that
    row and overlaps the shield sideways; else on row 100 when it
    starts below the first shield and overlaps it; everywhere else it
    reaches row 1. *)
Theorem bullet_lands_under_the_initial_shields {GD : GameDefines}
    fuel xPos yPos (g : game) :
  shieldArray g = initial_shields -> shields_counted g ->
  GameObj.hit (bullet g) = false ->
  0 <= xPos <= 65535 -> 1 < yPos <= 65535 ->
  (Z.to_nat yPos <= fuel)%nat ->
  exists g',
    shootBullet fuel xPos yPos To_bullet g = Done tt g' /\
    GameObj.xPos (bullet g') = xPos /\
    GameObj.yPos (bullet g') =
      if (140 <? yPos) && (xPos <? 80)
         && (50 <=? xPos + GameObj.width (bullet g))
      then 140
      else if (100 <? yPos) && (xPos <? 150)
              && (100 <=? xPos + GameObj.width (bullet g))
      then 100
      else 1.
Proof.
  intros Hsh Hc Hh Hx Hy Hf.
  rewrite shootBullet_bullet.
  destruct (bullet_flight_runs (Z.to_nat (yPos - 1)) fuel
              (with_bullet g (GameObj.moved (bullet g) xPos yPos)))
    as [g1 [y_f [h_f [new [E [Hb [_ [_ [_ [Hr [Hf0 [Hf1 Hclear]]]]]]]]]]]];
    cbn [with_bullet bullet shieldArray numShields lcd GameObj.moved
         GameObj.hit GameObj.xPos GameObj.yPos] in *;
    try lia; auto.
  rewrite E, Hsh in *.
  eexists; split; [reflexivity|]; cbn [bullet].
  rewrite Hb; cbn [GameObj.marked GameObj.moved GameObj.xPos GameObj.yPos].
  split; [reflexivity|].
  assert (Hstop : y_f = 1 \/
            (y_f < yPos /\
             ((y_f = 100 /\ xPos < 150 /\
               100 <= xPos + GameObj.width (bullet g)) \/
              (y_f = 140 /\ xPos < 80 /\
               50 <= xPos + GameObj.width (bullet g))))).
  { destruct h_f; [right|left; auto].
    destruct (Hf1 eq_refl) as [Hlt Hs].
    apply stopped_by_initial_shields in Hs; simpl in Hs; auto. }
  assert (Hpass : forall y,
             y_f < y < yPos ->
             ~ ((y = 100 /\ xPos < 150 /\
                 100 <= xPos + GameObj.width (bullet g)) \/
                (y = 140 /\ xPos < 80 /\
                 50 <= xPos + GameObj.width (bullet g)))).
  { intros y Hyy Hs.
    specialize (Hclear y Hyy).
    assert (Ht : stopped_by initial_shields
                   (GameObj.moved (bullet g) xPos y) = true)
      by (apply stopped_by_initial_shields; simpl; exact Hs).
    exact (eq_true_false_abs _ Ht Hclear). }
  pose proof (Hpass 100) as H100; pose proof (Hpass 140) as H140.
  destruct (140 <? yPos) eqn:E1; destruct (xPos <? 80) eqn:E2;
    destruct (50 <=? xPos + GameObj.width (bullet g)) eqn:E3;
    destruct (100 <? yPos) eqn:E4; destruct (xPos <? 150) eqn:E5;
    destruct (100 <=? xPos + GameObj.width (bullet g)) eqn:E6;
    cbn [andb];
    repeat match goal with
      | H : (_ <? _) = true |- _ => apply Z.ltb_lt in H
      | H : (_ <? _) = false |- _ => apply Z.ltb_ge in H
      | H : (_ <=? _) = true |- _ => apply Z.leb_le in H
      | H : (_ <=? _) = false |- _ => apply Z.leb_gt in H
      end;
    lia.
Qed.

(** The bullet of game.c shot from (110, 290), (60, 290) and
    (200, 290): under the first shield, under the second, under
    neither. *)
Lemma bullet_lands_under_the_initial_shields_witness :
  (exists g',
      @shootBullet sample_game_defines 290 110 290 To_bullet
        (@initial_game sample_game_defines false 0) = Done tt g' /\
      GameObj.yPos (bullet g') = 100) /\
  (exists g',
      @shootBullet sample_game_defines 290 60 290 To_bullet
        (@initial_game sample_game_defines false 0) = Done tt g' /\
      GameObj.yPos (bullet g') = 140) /\
  (exists g',
      @shootBullet sample_game_defines 290 200 290 To_bullet
        (@initial_game sample_game_defines false 0) = Done tt g' /\
      GameObj.yPos (bullet g') = 1).
Proof.
  split; [|split].
  - destruct (@bullet_lands_under_the_initial_shields sample_game_defines
                290 110 290 (@initial_game sample_game_defines false 0))
      as [g' [E [_ Hy]]];
      [reflexivity|reflexivity|reflexivity|lia|lia|simpl; lia|].
    exists g'; split; [exact E|exact Hy].
  - destruct (@bullet_lands_under_the_initial_shields sample_game_defines
                290 60 290 (@initial_game sample_game_defines false 0))
      as [g' [E [_ Hy]]];
      [reflexivity|reflexivity|reflexivity|lia|lia|simpl; lia|].
    exists g'; split; [exact E|exact Hy].
  - destruct (@bullet_lands_under_the_initial_shields sample_game_defines
                290 200 290 (@initial_game sample_game_defines false 0))
      as [g' [E [_ Hy]]];
      [reflexivity|reflexivity|reflexivity|lia|lia|simpl; lia|].
    exists g'; split; [exact E|exact Hy].
Defined.

Lemma shootBullet_returns {GD : GameDefines} fuel xPos yPos (g : game) :
  0 <= xPos <= 65535 -> 0 <= yPos <= 65535 ->
  shields_counted g ->
  (0 < fuel)%nat -> (Z.to_nat yPos <= fuel)%nat ->
  exists g',
    shootBullet fuel xPos yPos To_bullet g = Done tt g' /\
    same_but_bullet g g' /\
    GameObj.xPos (bullet g') = xPos /\
    GameObj.yPos (bullet g') <= Z.max yPos 0 /\
    GameObj.hit (bullet g') = false /\
    exists boxes, lcd g' = lcd g ++ boxes /\ boxes <> [].
Proof.
  intros Hx Hy Hc Hf0 Hf.
  rewrite shootBullet_bullet.
  destruct (GameObj.hit (bullet g)) eqn:Hh;
    [|destruct (Z_le_gt_dec yPos 1) as [Hlow|Hhigh]].
  - rewrite bullet_flight_idle;
      [|exact Hf0|right; cbn [with_bullet bullet GameObj.moved GameObj.hit];
                  exact Hh].
    eexists; split; [reflexivity|]; cbn [bullet lcd with_bullet].
    split; [repeat split|].
    split; [reflexivity|].
    split; [cbn [GameObj.marked GameObj.moved GameObj.yPos]; lia|].
    split; [reflexivity|].
    eexists; split; [reflexivity|discriminate].
  - rewrite bullet_flight_idle;
      [|exact Hf0|left; cbn [with_bullet bullet GameObj.moved GameObj.yPos];
                  exact Hlow].
    eexists; split; [reflexivity|]; cbn [bullet lcd with_bullet].
    split; [repeat split|].
    split; [reflexivity|].
    split; [cbn [GameObj.marked GameObj.moved GameObj.yPos]; lia|].
    split; [reflexivity|].
    eexists; split; [reflexivity|discriminate].
  - destruct (bullet_flight_runs (Z.to_nat (yPos - 1)) fuel
                (with_bullet g (GameObj.moved (bullet g) xPos yPos)))
      as [g1 [y_f [h_f [new [E [Hb [Hs [Hl [_ [Hr _]]]]]]]]]];
      cbn [with_bullet bullet shieldArray numShields lcd GameObj.moved
           GameObj.hit GameObj.xPos GameObj.yPos] in *;
      try lia; auto.
    rewrite E.
    eexists; split; [reflexivity|]; cbn [bullet lcd].
    split.
    { destruct Hs as [H1 [H2 [H3 [H4 [H5 [H6 [H7 H8]]]]]]].
      repeat split; assumption. }
    rewrite Hb; cbn [GameObj.marked GameObj.moved GameObj.xPos GameObj.yPos
                     GameObj.hit].
    split; [reflexivity|].
    split; [lia|].
    split; [reflexivity|].
    exists (new ++ [erasure_of
                      (GameObj.marked (GameObj.moved (bullet g) xPos y_f)
                         h_f)]).
    split; [rewrite Hl, <- app_assoc; reflexivity|].
    intros Habs; apply app_eq_nil in Habs; destruct Habs; discriminate.
Qed.

(** X20: [checkShooting] fires when the shot is ready and the screen is
    touched, and changes nothing otherwise.  It does not look at the
    number of bullets left: the count goes down by one whatever it is,
    below zero too.
    The bullet leaves from the column five to the left of the octopus
    and comes back with its hit flag clear; the display grows; score,
    characters and shields stay.  The shot is no longer ready, so a
    second call straight after changes nothing. *)
Theorem checkShooting_fires_once {GD : GameDefines} fuel (g : game) :
  (readyShoot g = false \/ touch_event g <= 0 ->
   checkShooting fuel g = Done tt g) /\
  (readyShoot g = true -> 0 < touch_event g ->
   - 2 ^ 31 < numBullets g ->
   shields_counted g ->
   65535 <= Z.of_nat fuel ->
   exists g',
     checkShooting fuel g = Done tt g' /\
     readyShoot g' = false /\
     numBullets g' = numBullets g - 1 /\
     score g' = score g /\ ufo g' = ufo g /\ octopus g' = octopus g /\
     shieldArray g' = shieldArray g /\
     GameObj.xPos (bullet g') =
       uint16 (GameCharacter.xPos (octopus g) - 5) /\
     GameObj.hit (bullet g') = false /\
     (exists boxes, lcd g' = lcd g ++ boxes /\ boxes <> []) /\
     checkShooting fuel g' = Done tt g').
Proof.
  split.
  { intros [Hr|Ht]; unfold checkShooting; [rewrite Hr; reflexivity|].
    destruct (0 <? touch_event g) eqn:E; [apply Z.ltb_lt in E; lia|].
    rewrite andb_false_r; reflexivity. }
  intros Hr Ht Hn Hc Hf.
  unfold checkShooting at 1.
  rewrite Hr; apply Z.ltb_lt in Ht; rewrite Ht; cbn [andb].
  destruct (numBullets g <=? - 2 ^ 31) eqn:En;
    [apply Z.leb_le in En; lia|].
  match goal with
  | |- context [shootBullet fuel ?x ?y To_bullet ?g0] =>
      destruct (shootBullet_returns fuel x y g0)
        as [g' [E [Hs [Hbx [_ [Hbh Hl]]]]]]
  end;
    try apply uint16_bounds; try exact Hc; try lia.
  { match goal with
    | |- context [Z.to_nat (uint16 ?v)] =>
        pose proof (uint16_bounds v); lia
    end. }
  destruct Hs as [H1 [H2 [H3 [H4 [H5 [H6 [H7 H8]]]]]]].
  cbn [score numBullets ufo octopus shieldArray numShields readyShoot
       touch_event lcd] in *.
  exists g'; split; [exact E|].
  split; [exact H7|]. split; [exact H2|]. split; [exact H1|].
  split; [exact H3|]. split; [exact H4|]. split; [exact H5|].
  split; [exact Hbx|]. split; [exact Hbh|]. split; [exact Hl|].
  unfold checkShooting; rewrite H7; reflexivity.
Qed.

(** The first touch of a game: ten bullets become nine, and the bullet
    leaves from column 115. *)
Lemma checkShooting_fires_once_witness :
  exists g',
    @checkShooting sample_game_defines (Z.to_nat 65535)
      (@initial_game sample_game_defines true 1) = Done tt g' /\
    readyShoot g' = false /\
    numBullets g' = 9 /\
    GameObj.xPos (bullet g') = 115 /\
    @checkShooting sample_game_defines (Z.to_nat 65535) g' = Done tt g'.
Proof.
  destruct (proj2 (@checkShooting_fires_once sample_game_defines
                     (Z.to_nat 65535)
                     (@initial_game sample_game_defines true 1)))
    as [g' [E [Hr [Hn [_ [_ [_ [_ [Hx [_ [_ Hagain]]]]]]]]]]].
  - reflexivity.
  - simpl; lia.
  - simpl; lia.
  - reflexivity.
  - lia.
  - exists g'; split; [exact E|]. split; [exact Hr|].
    split; [exact Hn|]. split; [exact Hx|exact Hagain].
Defined.
